(** * firefly-iii-ai-categorize: the webhook handler of [src/App.js]

    A shallow embedding of the request path of [App] (the methods
    [#onWebhook] and [#handleWebhook]) and of the closure it pushes on
    the queue, over a model of the JavaScript values that
    [express.json()] hands to the handler.

    - [JS]           : values, truthiness, strict equality, property
                       reads;
    - [Machine]      : the mutable store (data objects, job registry,
                       queue, trace of observable actions) and a
                       state-and-exception monad over it;
    - [JobList]      : the job registry used by [App];
    - [Orchestrator] : the closure that [#handleWebhook] pushes on the
                       queue, cut at its [await]s;
    - [Queue]        : what [push] does with a closure;
    - [App]          : [handleWebhook], [onWebhook] and the closure run
                       from its first statement to its last;
    - [Chain]        : the [if]s of [handleWebhook] as an ordered list
                       of rules;
    - [Outcome]      : the store and the trace that a run of the closure
                       leaves;
    - [Spec]         : the readings of the specification that are
                       compared with the code;
    - [Examples]     : payloads and services used to evaluate the above;
    - [Server]       : the steps of the running server. *)

From Stdlib Require Import ZArith SpecFloat Ascii String.
From stdpp Require Import gmap strings list pretty.

Local Set Warnings "-register-all".
Local Open Scope string_scope.
Local Open Scope list_scope.

(* ===================================================================== *)
(** * JavaScript values                                                   *)
(* ===================================================================== *)

Module JS.

(** A value as produced by [JSON.parse], plus [undefined] (what reading
    a missing property gives, and what [req.body] is when no body was
    parsed).  Numbers are IEEE 754 doubles ([spec_float]); strings are
    sequences of code units, of which the handler only observes
    emptiness and equality with literals; an object is its
    own-property map. *)
Inductive value : Type :=
  | VUndefined
  | VNull
  | VBool (b : bool)
  | VNum (n : spec_float)
  | VStr (s : string)
  | VArr (elems : list value)
  | VObj (props : gmap string value).

(** The two exceptions that the synchronous request path can raise:
    [WebhookException] (declared at the end of [App.js], an [Error]
    with the given message) and the engine's [TypeError]. *)
Inductive exn : Type :=
  | WebhookException (msg : string)
  | TypeError (msg : string).

(** [e.message] *)
Definition message (e : exn) : string :=
  match e with
  | WebhookException m => m
  | TypeError m => m
  end.

Inductive result (A : Type) : Type :=
  | Ok (a : A)
  | Throw (e : exn).
Arguments Ok {A} a.
Arguments Throw {A} e.

Definition nullish (v : value) : bool :=
  match v with
  | VUndefined | VNull => true
  | _ => false
  end.

(** [ToBoolean]: [undefined], [null], [false], [+0], [-0], [NaN] and
    the empty string are falsy; everything else, objects and arrays
    included, is truthy. *)
Definition truthy (v : value) : bool :=
  match v with
  | VUndefined | VNull => false
  | VBool b => b
  | VNum S754_nan | VNum (S754_zero _) => false
  | VNum _ => true
  | VStr s => negb (String.eqb s "")
  | VArr _ | VObj _ => true
  end.

(** [v === "lit"] for a string literal. *)
Definition is_string (v : value) (lit : string) : bool :=
  match v with
  | VStr s => String.eqb s lit
  | _ => false
  end.

(** [v === null] *)
Definition is_null (v : value) : bool :=
  match v with
  | VNull => true
  | _ => false
  end.

(** [v === 0]: strict equality on numbers identifies [+0] and [-0]. *)
Definition is_zero (v : value) : bool :=
  match v with
  | VNum (S754_zero _) => true
  | _ => false
  end.

(** The number of a length. *)
Definition number_of_nat (n : nat) : spec_float :=
  match n with
  | O => S754_zero false
  | S _ => S754_finite false (Pos.of_nat n) 0
  end.

Definition is_digit (c : ascii) : bool :=
  let n := nat_of_ascii c in (48 <=? n)%nat && (n <=? 57)%nat.

Fixpoint parse_digits (s : string) (acc : nat) : option nat :=
  match s with
  | EmptyString => Some acc
  | String c s' =>
      if is_digit c
      then parse_digits s' (10 * acc + (nat_of_ascii c - 48))
      else None
  end.

(** A property key is an array index when it is the canonical decimal
    numeral of a natural number: ["0"] is, ["00"] and [""] are not. *)
Definition array_index (k : string) : option nat :=
  match k with
  | EmptyString => None
  | _ =>
      match parse_digits k 0 with
      | Some n => if String.eqb (pretty n) k then Some n else None
      | None => None
      end
  end.

Definition char_at (s : string) (i : nat) : value :=
  match String.get i s with
  | Some c => VStr (String c EmptyString)
  | None => VUndefined
  end.

(** [v[k]] for a [v] that is neither [undefined] nor [null].  The keys
    read by the handler ([trigger], [response], [content], [id],
    [transactions], [length], [0], [type], [category_id],
    [description], [destination_name]) are not defined on any
    prototype, so a read finds an own property or [undefined].
    Arrays and strings own [length] and their indices. *)
Definition read (v : value) (k : string) : value :=
  match v with
  | VObj props => default VUndefined (props !! k)
  | VArr elems =>
      if String.eqb k "length" then VNum (number_of_nat (length elems))
      else match array_index k with
           | Some i => default VUndefined (elems !! i)
           | None => VUndefined
           end
  | VStr s =>
      if String.eqb k "length" then VNum (number_of_nat (String.length s))
      else match array_index k with
           | Some i => char_at s i
           | None => VUndefined
           end
  | _ => VUndefined
  end.

Definition type_name (v : value) : string :=
  match v with
  | VNull => "null"
  | _ => "undefined"
  end.

(** The message V8 gives the [TypeError] of a property read on
    [undefined] or [null]. *)
Definition cannot_read (v : value) (k : string) : string :=
  ("Cannot read properties of " ++ type_name v ++ " (reading '" ++ k ++ "')")%string.

(** [v.k] and [v[k]]: throws on [undefined] and [null]. *)
Definition get (v : value) (k : string) : result value :=
  if nullish v then Throw (TypeError (cannot_read v k)) else Ok (read v k).

(** [v?.k]: [undefined] on [undefined] and [null], never throws. *)
Definition get_opt (v : value) (k : string) : value :=
  if nullish v then VUndefined else read v k.

End JS.
Export JS.

Notation "v ?. k" := (get_opt v k) (at level 19, left associativity).

(** [v.k1.k2...]: a chain of plain property reads, left to right; the
    first read on [undefined] or [null] throws. *)
Fixpoint path (v : value) (ks : list string) : result value :=
  match ks with
  | [] => Ok v
  | k :: ks' =>
      match get v k with
      | Ok w => path w ks'
      | Throw e => Throw e
      end
  end.

(* ===================================================================== *)
(** * The store and the monad of the handler                              *)
(* ===================================================================== *)

Module Machine.

(** Job states of the registry. *)
Inductive job_status : Type := Created | InProgress | Finished.

(** Data objects ([{destinationName, description}], [newData]) are
    mutable and shared by reference: they live in a heap and are named
    by their address.  The values stored in their properties come from
    the payload and from the services and are never mutated. *)
Definition loc := nat.
Definition job_id := nat.

Record job : Type := Job {
  id : job_id;
  status : job_status;
  data : loc
}.

(** What an observer receives with a registry event: the job with its
    data serialised at the time of the emission. *)
Record snapshot : Type := Snapshot {
  snap_id : job_id;
  snap_status : job_status;
  snap_data : gmap string value
}.

(** The result of [openAi.classify]. *)
Record classification : Type := Classification {
  category : value;
  prompt : value;
  response : value
}.

(** The category taxonomy, a JavaScript [Map] from names to
    identifiers: insertion-ordered, keys distinct. *)
Definition taxonomy := list (string * value).

(** Observable actions, in the order in which they happen. *)
Inductive action : Type :=
  | Emit (event : string) (j : snapshot)
  | GetCategories
  | Classify (names : list string) (destinationName description : value)
  | SetCategory (contentId transactions categoryId : value).

(** The variables captured by the closure that [#handleWebhook] pushes
    on the queue: [job], [destinationName], [description] and [req]. *)
Record closure : Type := Closure {
  c_job : job_id;
  c_destinationName : value;
  c_description : value;
  c_body : value
}.

(** The three [await]s of the closure, with what is awaited there: the
    answer of [getCategories()] (line 148), the answer of [classify]
    for the taxonomy that was fetched (line 155), the answer of
    [setCategory] for the arguments it was called with (line 165). *)
Inductive stage : Type :=
  | AwaitTaxonomy
  | AwaitClassification (categories : taxonomy)
  | AwaitCommit (contentId transactions categoryId : value).

(** A closure that was started and is suspended at an [await]. *)
Record flight : Type := Flight {
  f_closure : closure;
  f_stage : stage
}.

(** The queue of [run] and what it has started: the closures pushed and
    not yet started, in the order of their [push]; the number of
    closures that the queue started and was not yet called back for;
    the started closures that are suspended at an [await], which the
    engine resumes when the awaited call settles. *)
Record queue_state : Type := QueueState {
  waiting : list closure;
  pending : nat;
  suspended : list flight
}.

Record state : Type := State {
  heap : list (gmap string value);
  jobs : list job;
  queue : queue_state;
  trace : list action
}.

(** The store of [run] before the first request: no object, no job, a
    queue that has started nothing. *)
Definition initial : state := State [] [] (QueueState [] 0 []) [].

(** Computations that read and write the store and may throw; the
    store survives an exception. *)
Definition M (A : Type) : Type := state → result A * state.

#[export] Instance M_ret : MRet M := λ A a s, (Ok a, s).

#[export] Instance M_bind : MBind M := λ A B f m s,
  match m s with
  | (Ok a, s') => f a s'
  | (Throw e, s') => (Throw e, s')
  end.

Definition throw {A} (e : exn) : M A := λ s, (Throw e, s).

Definition lift {A} (r : result A) : M A := λ s, (r, s).

Definition log (a : action) : M unit := λ s,
  (Ok tt, State (heap s) (jobs s) (queue s) (trace s ++ [a])).

(** An object literal or [{}]: a fresh object. *)
Definition alloc (o : gmap string value) : M loc := λ s,
  (Ok (length (heap s)), State (heap s ++ [o]) (jobs s) (queue s) (trace s)).

Definition deref (s : state) (l : loc) : gmap string value :=
  default ∅ (heap s !! l).

(** [o.k = v] on the object at [l], in place. *)
Definition set_prop (l : loc) (k : string) (v : value) : M unit := λ s,
  (Ok tt, State (alter (insert k v) l (heap s)) (jobs s) (queue s) (trace s)).

(** [Object.assign(target, source)]: copies the own properties of
    [source] onto [target] in place and returns [target]. *)
Definition object_assign (target source : loc) : M loc := λ s,
  (Ok target,
   State (alter (λ t, deref s source ∪ t) target (heap s))
         (jobs s) (queue s) (trace s)).

Definition set_queue (q : queue_state) (s : state) : state :=
  State (heap s) (jobs s) q (trace s).

Definition snapshot_of (s : state) (j : job) : snapshot :=
  Snapshot (id j) (status j) (deref s (data j)).

End Machine.
Export Machine.

(* ===================================================================== *)
(** * The job registry                                                    *)
(* ===================================================================== *)

Module JobList.

(** Modelled from the spec: [JobList.js] is imported by [App.js] but is
    not among the sources.  The registry is an in-memory store keyed by
    job id; jobs are never deleted, so a fresh id is the number of jobs
    created so far and the registry is the list of jobs in creation
    order ([getJobs]). *)
Definition getJobs (s : state) : list job := jobs s.

(** Modelled from the spec: [createJob(data) -> Job] allocates a fresh
    id, sets status [Created], stores [data] verbatim and emits
    [job created] with the full job snapshot.  The returned job is the
    registry's own, named by its id. *)
Definition createJob (d : loc) : M job_id := λ s,
  let j := Job (length (jobs s)) Created d in
  (Ok (id j),
   State (heap s) (jobs s ++ [j]) (queue s)
         (trace s ++ [Emit "job created" (snapshot_of s j)])).

(** Modelled from the spec: a registry mutation on a known id replaces
    the job and emits [job updated]; on an unknown id it is a
    programming error. *)
Definition update (i : job_id) (f : job → job) : M unit := λ s,
  match jobs s !! i with
  | Some j =>
      (Ok tt,
       State (heap s) (<[i := f j]> (jobs s)) (queue s)
             (trace s ++ [Emit "job updated" (snapshot_of s (f j))]))
  | None => (Throw (TypeError "unknown job id"), s)
  end.

(** Modelled from the spec: [setJobInProgress(id)] transitions
    [Created -> InProgress]; the state machine is strictly forward. *)
Definition setJobInProgress (i : job_id) : M unit :=
  update i (λ j, Job (id j)
                     (match status j with
                      | Created => InProgress
                      | st => st
                      end)
                     (data j)).

(** Modelled from the spec: [updateJobData(id, newData)] replaces
    [data] wholesale (not merged) while preserving [status]. *)
Definition updateJobData (i : job_id) (newData : loc) : M unit :=
  update i (λ j, Job (id j) (status j) newData).

(** Modelled from the spec: [setJobFinished(id)] transitions
    [* -> Finished]. *)
Definition setJobFinished (i : job_id) : M unit :=
  update i (λ j, Job (id j) Finished (data j)).

End JobList.

(* ===================================================================== *)
(** * The closure of [#handleWebhook], cut at its [await]s                *)
(* ===================================================================== *)

Module Orchestrator.
Import JobList.

(** [Array.from(categories.keys())] *)
Definition keys (categories : taxonomy) : list string := categories.*1.

Fixpoint lookup_name (name : string) (categories : taxonomy) : value :=
  match categories with
  | [] => VUndefined
  | (n, i) :: rest => if String.eqb n name then i else lookup_name name rest
  end.

(** [categories.get(category)]: the keys of the taxonomy are names, so
    only a string can be found. *)
Definition map_get (categories : taxonomy) (k : value) : value :=
  match k with
  | VStr name => lookup_name name categories
  | _ => VUndefined
  end.

(** [job.data], for the [job] that [createJob] returned: the closure
    holds the job of the registry and reads the data it has when the
    closure runs. *)
Definition job_data (job : job_id) : M loc := λ s,
  match jobs s !! job with
  | Some j => (Ok (data j), s)
  | None => (Throw (TypeError "unknown job id"), s)
  end.

(** An [async] function runs like any other until its first [await],
    and from an [await] to the next one once the awaited call has
    settled.  The closure pushed by [#handleWebhook] has three:
    each piece below returns the [await] at which it stops, or [None]
    when it reached the end of the closure.

    Lines 145 to 148: the job is marked and [getCategories] is
    called. *)
Definition begin (c : closure) : M stage :=
  setJobInProgress (c_job c);;
  log GetCategories;;
  mret AwaitTaxonomy.

(** Lines 149 to 155, with the taxonomy that [getCategories] answered:
    [classify] is called. *)
Definition after_taxonomy (c : closure) (categories : taxonomy)
    : M (option stage) :=
  log (Classify (keys categories) (c_destinationName c) (c_description c));;
  mret (Some (AwaitClassification categories)).

(** Lines 151 to 168, with the classification that [classify]
    answered: the data of the job is replaced and, with a truthy
    category, [setCategory] is called; otherwise the job is marked
    [Finished] and the closure ends. *)
Definition after_classification (c : closure) (categories : taxonomy)
    (r : classification) : M (option stage) :=
  target ← alloc ∅;
  source ← job_data (c_job c);
  newData ← object_assign target source;
  set_prop newData "category" (category r);;
  set_prop newData "prompt" (prompt r);;
  set_prop newData "response" (response r);;
  updateJobData (c_job c) newData;;
  if truthy (category r)
  then contentId ← lift (path (c_body c) ["content"; "id"]);
       transactions ← lift (path (c_body c) ["content"; "transactions"]);
       log (SetCategory contentId transactions
                        (map_get categories (category r)));;
       mret (Some (AwaitCommit contentId transactions
                               (map_get categories (category r))))
  else (setJobFinished (c_job c);; mret None).

(** Line 168, once [setCategory] has answered. *)
Definition after_commit (c : closure) : M (option stage) :=
  setJobFinished (c_job c);; mret None.

End Orchestrator.
Export Orchestrator.

(* ===================================================================== *)
(** * The queue                                                           *)
(* ===================================================================== *)

Module Queue.

(** The options of [new Queue] in [run]: milliseconds, items, flag. *)
Record queue_options : Type := QueueOptions {
  timeout : N;
  concurrency : nat;
  autostart : bool
}.

Definition queue_config : queue_options :=
  QueueOptions (30 * 1000)%N 1 true.

(** The queue may start a closure: it has started fewer closures that
    it was not called back for than [concurrency]. *)
Definition free (q : queue_state) : bool :=
  (pending q <? concurrency queue_config)%nat.

(** Modelled from the spec: the [queue] package is imported by [App.js]
    but is not among the sources.  Section 4.3: at most one item
    executes at any instant, in the order of submission.  When a slot
    is free and a closure waits, the queue takes the first one and
    calls it: the closure runs to its first [await] at once, and is
    suspended there; a closure that throws before that has ended.
    With [concurrency: 1] one closure at most is started. *)
Definition start : M unit := λ s,
  let q := queue s in
  if free q then
    match waiting q with
    | [] => (Ok tt, s)
    | c :: rest =>
        match begin c (set_queue (QueueState rest (S (pending q))
                                             (suspended q)) s) with
        | (Ok st, s') =>
            (Ok tt,
             set_queue (QueueState (waiting (queue s')) (pending (queue s'))
                                   (suspended (queue s') ++ [Flight c st]))
                       s')
        | (Throw _, s') => (Ok tt, s')
        end
    end
  else (Ok tt, s).

(** Modelled from the spec: [queue.push(f)] puts the closure behind
    those that wait and, [autostart] being set (section 4.3: the queue
    begins processing as soon as an item is submitted, with no separate
    start call), starts what it can before it returns. *)
Definition queue_push (c : closure) : M unit := λ s,
  let q := queue s in
  let s' := set_queue (QueueState (waiting q ++ [c]) (pending q)
                                  (suspended q)) s in
  if autostart queue_config then start s' else (Ok tt, s').

(** Modelled from the spec: the queue is called back for a closure that
    it started, because the closure ended or because its timeout
    passed: the slot is given back and the queue starts what it can.
    A closure whose timeout passed is not cancelled (section 4.3): it
    stays suspended and may still be resumed. *)
Definition next : M unit := λ s,
  let q := queue s in
  start (set_queue (QueueState (waiting q) (Nat.pred (pending q))
                               (suspended q)) s).

(** A queue can also be ended, which drops what waits and frees every
    slot.  Whether and when the package does so (on the failure of a
    closure, for one) cannot be read in the sources; the steps of the
    server allow it at any moment. *)
Definition ended (s : state) : state :=
  set_queue (QueueState [] 0 (suspended (queue s))) s.

(** The [k]-th suspended closure [c] is resumed and runs the piece [m]:
    it is then suspended where [m] stopped, or gone when [m] reached
    the end of the closure or threw. *)
Definition resume (k : nat) (c : closure) (m : M (option stage))
    (s : state) : state :=
  match m s with
  | (Ok (Some st), s') =>
      set_queue (QueueState (waiting (queue s')) (pending (queue s'))
                            (<[k := Flight c st]> (suspended (queue s'))))
                s'
  | (_, s') =>
      set_queue (QueueState (waiting (queue s')) (pending (queue s'))
                            (delete k (suspended (queue s'))))
                s'
  end.

End Queue.
Export Queue.

(* ===================================================================== *)
(** * [App]: the webhook handler and the queued closure                   *)
(* ===================================================================== *)

Module App.
Import JobList.

(** The two collaborators [FireflyService] and [OpenAiService], by
    their interface: what each call answers (or throws).  A call is
    recorded in the trace before its answer is used. *)
Record services : Type := Services {
  getCategories : result taxonomy;
  classify : list string → value → value → result classification;
  setCategory : value → value → value → result unit
}.

(** The response as [res] leaves it: [res.send(text)] answers with the
    status set before it, 200 unless [res.status] changed it. *)
Record http_response : Type := HttpResponse {
  status_code : nat;
  sent : string
}.

(** The rules of [#handleWebhook], in the order of its [if]s. *)
Inductive rule : Type :=
  | RTrigger
  | RResponse
  | RContentId
  | RTransactions
  | RType
  | RCategory
  | RDescription
  | RDestinationName.

Definition rules : list rule :=
  [RTrigger; RResponse; RContentId; RTransactions;
   RType; RCategory; RDescription; RDestinationName].

(** The message of the [WebhookException] thrown for each rule. *)
Definition rule_message (r : rule) : string :=
  match r with
  | RTrigger => "trigger is not STORE_TRANSACTION. Request will not be processed"
  | RResponse => "trigger is not TRANSACTION. Request will not be processed"
  | RContentId => "Missing content.id"
  | RTransactions => "No transactions are available in content.transactions"
  | RType => "content.transactions[0].type has to be 'withdrawal'. Transaction will be ignored."
  | RCategory => "content.transactions[0].category_id is already set. Transaction will be ignored."
  | RDescription => "Missing content.transactions[0].description"
  | RDestinationName => "Missing content.transactions[0].destination_name"
  end.

(** [req.body.content.transactions[0]] *)
Definition first_transaction (body : value) : result value :=
  path body ["content"; "transactions"; "0"].

(** [#handleWebhook(req, res)], on [req.body]. *)
Definition handleWebhook (body : value) : M unit :=
  if negb (is_string (body ?. "trigger") "STORE_TRANSACTION")
  then throw (WebhookException (rule_message RTrigger)) else
  if negb (is_string (body ?. "response") "TRANSACTIONS")
  then throw (WebhookException (rule_message RResponse)) else
  if negb (truthy (body ?. "content" ?. "id"))
  then throw (WebhookException (rule_message RContentId)) else
  if is_zero (body ?. "content" ?. "transactions" ?. "length")
  then throw (WebhookException (rule_message RTransactions)) else
  type ← lift (path body ["content"; "transactions"; "0"; "type"]);
  if negb (is_string type "withdrawal")
  then throw (WebhookException (rule_message RType)) else
  category_id ← lift (path body ["content"; "transactions"; "0"; "category_id"]);
  if negb (is_null category_id)
  then throw (WebhookException (rule_message RCategory)) else
  description ← lift (path body ["content"; "transactions"; "0"; "description"]);
  if negb (truthy description)
  then throw (WebhookException (rule_message RDescription)) else
  destination_name ← lift (path body ["content"; "transactions"; "0"; "destination_name"]);
  if negb (truthy destination_name)
  then throw (WebhookException (rule_message RDestinationName)) else
  destinationName ← lift (path body ["content"; "transactions"; "0"; "destination_name"]);
  description ← lift (path body ["content"; "transactions"; "0"; "description"]);
  literal ← alloc {[ "destinationName" := destinationName;
                     "description" := description ]};
  job ← createJob literal;
  queue_push (Closure job destinationName description body).

(** [#onWebhook(req, res)]: the [try]/[catch] around [#handleWebhook]. *)
Definition onWebhook (body : value) (s : state) : http_response * state :=
  match handleWebhook body s with
  | (Ok _, s') => (HttpResponse 200 "Queued", s')
  | (Throw e, s') => (HttpResponse 400 (message e), s')
  end.

Section Run.
Variable svc : services.

Definition fetch_categories : M taxonomy :=
  log GetCategories;; lift (getCategories svc).

Definition request_classification
    (names : list string) (destinationName description : value)
    : M classification :=
  log (Classify names destinationName description);;
  lift (classify svc names destinationName description).

Definition commit_category (contentId transactions categoryId : value)
    : M unit :=
  log (SetCategory contentId transactions categoryId);;
  lift (setCategory svc contentId transactions categoryId).

(** The [async] function pushed on the queue by [#handleWebhook],
    run from its first statement to its last. *)
Definition run_closure (c : closure) : M unit :=
  setJobInProgress (c_job c);;
  categories ← fetch_categories;
  r ← request_classification (keys categories)
                             (c_destinationName c) (c_description c);
  target ← alloc ∅;
  source ← job_data (c_job c);
  newData ← object_assign target source;
  set_prop newData "category" (category r);;
  set_prop newData "prompt" (prompt r);;
  set_prop newData "response" (response r);;
  updateJobData (c_job c) newData;;
  (if truthy (category r)
   then contentId ← lift (path (c_body c) ["content"; "id"]);
        transactions ← lift (path (c_body c) ["content"; "transactions"]);
        commit_category contentId transactions
                        (map_get categories (category r))
   else mret tt);;
  setJobFinished (c_job c).

(** What the services answer to the call awaited at [st]. *)
Definition settle (c : closure) (st : stage) : M (option stage) :=
  match st with
  | AwaitTaxonomy =>
      categories ← lift (getCategories svc);
      after_taxonomy c categories
  | AwaitClassification categories =>
      r ← lift (classify svc (keys categories)
                         (c_destinationName c) (c_description c));
      after_classification c categories r
  | AwaitCommit contentId transactions categoryId =>
      lift (setCategory svc contentId transactions categoryId);;
      after_commit c
  end.

(** The rest of the closure from the [await] [st], when the services
    answer each call it makes and nothing else happens in between.
    The closure has three [await]s, so it ends after three pieces at
    most. *)
Definition finish (c : closure) (st : stage) : M unit :=
  o1 ← settle c st;
  match o1 with
  | None => mret tt
  | Some st1 =>
      o2 ← settle c st1;
      match o2 with
      | None => mret tt
      | Some st2 => settle c st2;; mret tt
      end
  end.

End Run.

End App.
Export App.

(* ===================================================================== *)
(** * The validation chain as a list of rules                             *)
(* ===================================================================== *)

Module Chain.

#[export] Instance rule_eq_dec : EqDecision rule.
Proof. solve_decision. Defined.

(** A field of [req.body.content.transactions[0]], read as the guards
    of rules 4 to 7 read it. *)
Definition transaction_field (body : value) (k : string) : result value :=
  path body ["content"; "transactions"; "0"; k].

Definition on_field (body : value) (k : string) (test : value → bool)
    : result bool :=
  match transaction_field body k with
  | Ok v => Ok (test v)
  | Throw e => Throw e
  end.

(** The condition of the [if] of each rule: [Ok true] when the rule
    fires (its exception is thrown), [Ok false] when it lets the
    payload through, [Throw] when evaluating the condition throws. *)
Definition guard (r : rule) (body : value) : result bool :=
  match r with
  | RTrigger =>
      Ok (negb (is_string (body ?. "trigger") "STORE_TRANSACTION"))
  | RResponse =>
      Ok (negb (is_string (body ?. "response") "TRANSACTIONS"))
  | RContentId =>
      Ok (negb (truthy (body ?. "content" ?. "id")))
  | RTransactions =>
      Ok (is_zero (body ?. "content" ?. "transactions" ?. "length"))
  | RType =>
      on_field body "type" (λ v, negb (is_string v "withdrawal"))
  | RCategory =>
      on_field body "category_id" (λ v, negb (is_null v))
  | RDescription =>
      on_field body "description" (λ v, negb (truthy v))
  | RDestinationName =>
      on_field body "destination_name" (λ v, negb (truthy v))
  end.

(** The rules are tried in order; the first guard that fires or throws
    ends the chain. *)
Fixpoint check (rs : list rule) (body : value) : result unit :=
  match rs with
  | [] => Ok tt
  | r :: rs' =>
      match guard r body with
      | Ok false => check rs' body
      | Ok true => Throw (WebhookException (rule_message r))
      | Throw e => Throw e
      end
  end.

(** The rules that come before [r] in [rules]. *)
Definition earlier (r : rule) : list rule :=
  take (default 0 (fst <$> list_find (λ r', r' = r) rules)) rules.

(** The guard of a rule fires. *)
Definition fires (r : rule) (body : value) : Prop :=
  guard r body = Ok true.

(** A payload passes validation when no guard fires or throws. *)
Definition passes (body : value) : Prop :=
  ∀ r, guard r body = Ok false.

(** Lines 136 to 142: the job is created; the closure of line 144
    captures it with [destinationName], [description] and [req]. *)
Definition create (body : value) : M closure :=
  destinationName ← lift (transaction_field body "destination_name");
  description ← lift (transaction_field body "description");
  literal ← alloc {[ "destinationName" := destinationName;
                     "description" := description ]};
  job ← JobList.createJob literal;
  mret (Closure job destinationName description body).

(** What [#handleWebhook] does once every rule has let the payload
    through: lines 136 to 169. *)
Definition accept (body : value) : M unit :=
  c ← create body;
  queue_push c.

(** The store after lines 136 to 142: one more data object, one more
    job, one more event. *)
Definition created_store (body tx : value) (s : state) : state :=
  let d := {[ "destinationName" := read tx "destination_name";
              "description" := read tx "description" ]} in
  State (heap s ++ [d])
        (jobs s ++ [Job (length (jobs s)) Created (length (heap s))])
        (queue s)
        (trace s ++ [Emit "job created" (Snapshot (length (jobs s)) Created d)]).

(** The first transaction as optional reads find it: a part that is
    missing has no fields. *)
Definition first_tx (body : value) : value :=
  body ?. "content" ?. "transactions" ?. "0".

(** The condition of the [if] of each rule, read through optional
    reads so that it has a value for every payload: it is the guard of
    the rule wherever the guard can be evaluated. *)
Definition violates (r : rule) (body : value) : bool :=
  match r with
  | RTrigger => negb (is_string (body ?. "trigger") "STORE_TRANSACTION")
  | RResponse => negb (is_string (body ?. "response") "TRANSACTIONS")
  | RContentId => negb (truthy (body ?. "content" ?. "id"))
  | RTransactions => is_zero (body ?. "content" ?. "transactions" ?. "length")
  | RType => negb (is_string (first_tx body ?. "type") "withdrawal")
  | RCategory => negb (is_null (first_tx body ?. "category_id"))
  | RDescription => negb (truthy (first_tx body ?. "description"))
  | RDestinationName => negb (truthy (first_tx body ?. "destination_name"))
  end.

Fixpoint first_of (rs : list rule) (body : value) : option rule :=
  match rs with
  | [] => None
  | r :: rs' => if violates r body then Some r else first_of rs' body
  end.

(** The first rule, in the order of the chain, whose condition holds. *)
Definition first_violated (body : value) : option rule :=
  first_of rules body.

(** The rules whose condition reads the first transaction. *)
Definition reads_first_transaction (r : rule) : bool :=
  match r with
  | RType | RCategory | RDescription | RDestinationName => true
  | _ => false
  end.

(** The payload has a first transaction: [content.transactions[0]] is
    neither [undefined] nor [null]. *)
Definition has_first_transaction (body : value) : Prop :=
  nullish (first_tx body) = false.

(** The store in which the closure of an accepted request is handed to
    the queue: one more data object, one more job, one more event, and
    the closure behind those that wait. *)
Definition accepted_store (body tx : value) (s : state) : state :=
  let destinationName := read tx "destination_name" in
  let description := read tx "description" in
  let d := {[ "destinationName" := destinationName;
              "description" := description ]} in
  let j := Job (length (jobs s)) Created (length (heap s)) in
  State (heap s ++ [d])
        (jobs s ++ [j])
        (QueueState
           (waiting (queue s)
            ++ [Closure (length (jobs s)) destinationName description body])
           (pending (queue s)) (suspended (queue s)))
        (trace s ++ [Emit "job created" (Snapshot (length (jobs s)) Created d)]).

(** The store that an accepted request leaves when the queue had a free
    slot and nothing waited: the closure was started by [push], its job
    is marked, [getCategories] was called and the closure is
    suspended. *)
Definition begun_store (body tx : value) (s : state) : state :=
  let destinationName := read tx "destination_name" in
  let description := read tx "description" in
  let d := {[ "destinationName" := destinationName;
              "description" := description ]} in
  let i := length (jobs s) in
  State (heap s ++ [d])
        (jobs s ++ [Job i InProgress (length (heap s))])
        (QueueState []
           (S (pending (queue s)))
           (suspended (queue s)
            ++ [Flight (Closure i destinationName description body)
                       AwaitTaxonomy]))
        (trace s ++ [Emit "job created" (Snapshot i Created d);
                     Emit "job updated" (Snapshot i InProgress d);
                     GetCategories]).

End Chain.
Export Chain.

(* ===================================================================== *)
(** * The outcome of the queued closure                                   *)
(* ===================================================================== *)

Module Outcome.

(** [newData]: a copy of the job's data with the three results of the
    classification assigned to it, in the order of the assignments. *)
Definition merged (d : gmap string value) (r : classification)
    : gmap string value :=
  <["response" := response r]>
    (<["prompt" := prompt r]> (<["category" := category r]> d)).

(** The arguments of [firefly.setCategory] for the request [body]. *)
Definition commit (body : value) (categories : taxonomy)
    (r : classification) : action :=
  SetCategory (body ?. "content" ?. "id")
              (body ?. "content" ?. "transactions")
              (map_get categories (category r)).

(** The actions of one run of the closure [c] on the job [j] whose
    data is [d], when the services answer [categories] and [r]. *)
Definition steps (c : closure) (j : job) (d : gmap string value)
    (categories : taxonomy) (r : classification) : list action :=
  [ Emit "job updated" (Snapshot (id j) InProgress d);
    GetCategories;
    Classify (keys categories) (c_destinationName c) (c_description c);
    Emit "job updated" (Snapshot (id j) InProgress (merged d r)) ]
  ++ (if truthy (category r) then [commit (c_body c) categories r] else [])
  ++ [ Emit "job updated" (Snapshot (id j) Finished (merged d r)) ].

(** The store after that run. *)
Definition finished_store (c : closure) (j : job)
    (categories : taxonomy) (r : classification) (s : state) : state :=
  State (heap s ++ [merged (deref s (data j)) r])
        (<[c_job c := Job (id j) Finished (length (heap s))]> (jobs s))
        (queue s)
        (trace s ++ steps c j (deref s (data j)) categories r).

(** The services answer every call that the closure [c] makes. *)
Definition answers (svc : services) (c : closure)
    (categories : taxonomy) (r : classification) : Prop :=
  getCategories svc = Ok categories
  ∧ classify svc (keys categories) (c_destinationName c) (c_description c)
    = Ok r
  ∧ (truthy (category r) = true →
     setCategory svc (c_body c ?. "content" ?. "id")
                     (c_body c ?. "content" ?. "transactions")
                     (map_get categories (category r)) = Ok tt).

End Outcome.
Export Outcome.

(* ===================================================================== *)
(** * Readings of the specification                                       *)
(* ===================================================================== *)

Module Spec.

(** "a payload whose content lacks the transactions list entirely" *)
Definition lacks_transactions (body : value) : Prop :=
  body ?. "content" ?. "transactions" = VUndefined.

(** "the first transaction's category is unset (including one where the
    category_id field is absent)" *)
Definition category_unset (tx : value) : bool :=
  match tx ?. "category_id" with
  | VNull | VUndefined => true
  | _ => false
  end.

(** "the transaction list is non-empty": [content.transactions] is a
    list and has a first element. *)
Definition transaction_list_nonempty (body : value) : bool :=
  match body ?. "content" ?. "transactions" with
  | VArr (_ :: _) => true
  | _ => false
  end.

(** The rules of section 4.1 in its words, as predicates that any
    payload either satisfies or breaks: the event-trigger field and the
    response-shape field hold their sentinel values; "a stable content
    identifier is present"; "the transaction list is non-empty"; "the
    first transaction's type equals withdrawal"; "the first
    transaction's category is unset"; "description is present and
    non-empty"; "destinationName is present and non-empty".  A payload
    without a first transaction has no type, description or destination
    name. *)
Definition breaks (r : rule) (body : value) : bool :=
  match r with
  | RTrigger => negb (is_string (body ?. "trigger") "STORE_TRANSACTION")
  | RResponse => negb (is_string (body ?. "response") "TRANSACTIONS")
  | RContentId => negb (truthy (body ?. "content" ?. "id"))
  | RTransactions => negb (transaction_list_nonempty body)
  | RType => negb (is_string (first_tx body ?. "type") "withdrawal")
  | RCategory => negb (category_unset (first_tx body))
  | RDescription => negb (truthy (first_tx body ?. "description"))
  | RDestinationName => negb (truthy (first_tx body ?. "destination_name"))
  end.

Fixpoint first_among (rs : list rule) (body : value) : option rule :=
  match rs with
  | [] => None
  | r :: rs' => if breaks r body then Some r else first_among rs' body
  end.

(** "the first violated rule in that order" *)
Definition first_broken (body : value) : option rule :=
  first_among rules body.

(** "when a payload violates several rules, it is rejected with the
    message of the first violated rule" *)
Definition reports_first_violation (body : value) : Prop :=
  ∀ r s, first_broken body = Some r →
         handleWebhook body s =
         (Throw (WebhookException (rule_message r)), s).

(** "for every payload that fails validation it returns a client-error
    status (400) whose body is the violated rule's message" *)
Definition answers_rule_message (body : value) : Prop :=
  ∀ r s, first_broken body = Some r →
         onWebhook body s = (HttpResponse 400 (rule_message r), s).

(** "rule 5 rejects a payload exactly when the first transaction's
    category is already set" *)
Definition rule5_as_stated (body : value) : Prop :=
  ∀ tx, first_transaction body = Ok tx →
        guard RCategory body = Ok (negb (category_unset tx)).

(** "classification yields no match": the chosen category is empty. *)
Definition no_match (r : classification) : Prop :=
  truthy (category r) = false.

(** "the key is absent from the data mapping" *)
Definition absent (k : string) (d : gmap string value) : Prop :=
  d !! k = None.

End Spec.

(* ===================================================================== *)
(** * Example payloads                                                    *)
(* ===================================================================== *)

Module Examples.

Definition transaction (type category_id description destination_name : value)
    : value :=
  VObj {[ "type" := type; "category_id" := category_id;
          "description" := description;
          "destination_name" := destination_name ]}.

Definition payload (trigger response : string) (content : value) : value :=
  VObj {[ "trigger" := VStr trigger; "response" := VStr response;
          "content" := content ]}.

Definition content_of (transactions : value) : value :=
  VObj {[ "id" := VStr "1"; "transactions" := transactions ]}.

Definition coffee : value :=
  transaction (VStr "withdrawal") VNull (VStr "coffee") (VStr "Cafe").

(** Scenario A of the specification. *)
Definition scenario_A : value :=
  payload "STORE_TRANSACTION" "TRANSACTIONS" (content_of (VArr [coffee])).

(** Scenario A with a wrong [response], a deposit and no description:
    three rules are violated. *)
Definition several_violations : value :=
  payload "STORE_TRANSACTION" "OTHER"
    (content_of (VArr [transaction (VStr "deposit") VNull VUndefined
                                    (VStr "Cafe")])).

(** Scenario A whose [content] has an [id] and nothing else. *)
Definition without_transactions : value :=
  payload "STORE_TRANSACTION" "TRANSACTIONS" (VObj {[ "id" := VStr "1" ]}).

(** Scenario A whose [transactions] is [null]. *)
Definition null_list : value :=
  payload "STORE_TRANSACTION" "TRANSACTIONS" (content_of VNull).

(** Scenario A whose transaction has no [category_id] property. *)
Definition without_category_id : value :=
  payload "STORE_TRANSACTION" "TRANSACTIONS"
    (content_of (VArr [VObj {[ "type" := VStr "withdrawal";
                               "description" := VStr "coffee";
                               "destination_name" := VStr "Cafe" ]}])).

(** Scenario A whose transaction already has category 7. *)
Definition with_category : value :=
  payload "STORE_TRANSACTION" "TRANSACTIONS"
    (content_of (VArr [transaction (VStr "withdrawal")
                                   (VNum (S754_finite false 7 0))
                                   (VStr "coffee") (VStr "Cafe")])).

Definition groceries_taxonomy : taxonomy :=
  [("Groceries", VStr "12"); ("Eating out", VStr "14")].

(** Services that answer every call; the classification chooses
    [chosen]. *)
Definition answering (chosen : value) : services :=
  Services (Ok groceries_taxonomy)
           (λ _ _ _, Ok (Classification chosen (VStr "prompt") (VStr "raw")))
           (λ _ _ _, Ok tt).

End Examples.

(* ===================================================================== *)
(** * Payloads by their parts, and every outcome of the closure           *)
(* ===================================================================== *)

Module Shapes.

(** A request body with the own properties [top], whose [content] has
    the own properties [content] and the given [transactions]. *)
Definition body_of (top content : gmap string value) (transactions : value)
    : value :=
  VObj (<["content" := VObj (<["transactions" := transactions]> content)]> top).

(** The properties that [#handleWebhook] reads at each level. *)
Definition top_keys : list string := ["trigger"; "response"; "content"].
Definition content_keys : list string := ["id"; "transactions"].
Definition transaction_keys : list string :=
  ["type"; "category_id"; "description"; "destination_name"].

(** The rules whose condition does not read the first transaction. *)
Definition early_rules : list rule :=
  [RTrigger; RResponse; RContentId; RTransactions].

(** The job as [setJobInProgress] leaves it. *)
Definition started (j : job) : job :=
  Job (id j)
      (match status j with
       | Created => InProgress
       | st => st
       end)
      (data j).

(** What a run of the closure [c] on its job [j] does, for every answer
    of the services: the result and the store it leaves, case by case
    in the order of the statements of the closure. *)
Definition closure_outcome (svc : services) (c : closure) (j : job)
    (s : state) : result unit * state :=
  let i := c_job c in
  let d := deref s (data j) in
  let l := length (heap s) in
  let begun := Emit "job updated" (snapshot_of s (started j)) in
  let stuck (t : list action) :=
    State (heap s) (<[i := started j]> (jobs s)) (queue s)
          (trace s ++ begun :: t) in
  match getCategories svc with
  | Throw e => (Throw e, stuck [GetCategories])
  | Ok categories =>
      let asked :=
        Classify (keys categories) (c_destinationName c) (c_description c) in
      match classify svc (keys categories)
                     (c_destinationName c) (c_description c) with
      | Throw e => (Throw e, stuck [GetCategories; asked])
      | Ok r =>
          let st := status (started j) in
          let recorded :=
            Emit "job updated" (Snapshot (id j) st (merged d r)) in
          let updated (t : list action) :=
            State (heap s ++ [merged d r])
                  (<[i := Job (id j) st l]> (jobs s)) (queue s)
                  (trace s ++ [begun; GetCategories; asked; recorded] ++ t) in
          let finished (t : list action) :=
            State (heap s ++ [merged d r])
                  (<[i := Job (id j) Finished l]> (jobs s)) (queue s)
                  (trace s ++ [begun; GetCategories; asked; recorded] ++ t
                   ++ [Emit "job updated"
                         (Snapshot (id j) Finished (merged d r))]) in
          if truthy (category r)
          then
            match path (c_body c) ["content"; "id"] with
            | Throw e => (Throw e, updated [])
            | Ok contentId =>
                match path (c_body c) ["content"; "transactions"] with
                | Throw e => (Throw e, updated [])
                | Ok transactions =>
                    let categoryId := map_get categories (category r) in
                    let call :=
                      SetCategory contentId transactions categoryId in
                    match setCategory svc contentId transactions categoryId with
                    | Throw e => (Throw e, updated [call])
                    | Ok _ => (Ok tt, finished [call])
                    end
                end
            end
          else (Ok tt, finished [])
      end
  end.

(** What [start] leaves: with a free slot and a closure that waits, the
    first one is taken off, its job is marked, [getCategories] is
    called and the closure is suspended. *)
Definition started_store (s : state) : state :=
  let q := queue s in
  if free q then
    match waiting q with
    | [] => s
    | c :: rest =>
        match jobs s !! c_job c with
        | Some j =>
            State (heap s) (<[c_job c := started j]> (jobs s))
                  (QueueState rest (S (pending q))
                              (suspended q ++ [Flight c AwaitTaxonomy]))
                  (trace s ++ [Emit "job updated" (snapshot_of s (started j));
                               GetCategories])
        | None => set_queue (QueueState rest (S (pending q)) (suspended q)) s
        end
    end
  else s.

(** What the closure [c] does to its job [j] when it is resumed with
    the classification [r]: the result and the store, case by case. *)
Definition classified_outcome (c : closure) (categories : taxonomy)
    (r : classification) (j : job) (s : state)
    : result (option stage) * state :=
  let i := c_job c in
  let d := merged (deref s (data j)) r in
  let l := length (heap s) in
  let recorded := Emit "job updated" (Snapshot (id j) (status j) d) in
  let updated (t : list action) :=
    State (heap s ++ [d]) (<[i := Job (id j) (status j) l]> (jobs s))
          (queue s) (trace s ++ recorded :: t) in
  if truthy (category r)
  then
    match path (c_body c) ["content"; "id"] with
    | Throw e => (Throw e, updated [])
    | Ok contentId =>
        match path (c_body c) ["content"; "transactions"] with
        | Throw e => (Throw e, updated [])
        | Ok transactions =>
            let categoryId := map_get categories (category r) in
            (Ok (Some (AwaitCommit contentId transactions categoryId)),
             updated [SetCategory contentId transactions categoryId])
        end
    end
  else
    (Ok None,
     State (heap s ++ [d]) (<[i := Job (id j) Finished l]> (jobs s))
           (queue s)
           (trace s ++ [recorded;
                        Emit "job updated" (Snapshot (id j) Finished d)])).

(** The exception [e] was thrown by one of the services. *)
Definition thrown_by_service (svc : services) (e : exn) : Prop :=
  getCategories svc = Throw e
  ∨ (∃ names destinationName description,
       classify svc names destinationName description = Throw e)
  ∨ (∃ contentId transactions categoryId,
       setCategory svc contentId transactions categoryId = Throw e).

End Shapes.
Export Shapes.

(* ===================================================================== *)
(** * The running server                                                  *)
(* ===================================================================== *)

Module Server.

(** The requests of a list handled one after the other, in the order of
    their arrival: the answers and the store they leave. *)
Fixpoint serve (bodies : list value) (s : state)
    : list http_response * state :=
  match bodies with
  | [] => ([], s)
  | body :: later =>
      let '(answer, s1) := onWebhook body s in
      let '(answers, s2) := serve later s1 in
      (answer :: answers, s2)
  end.

(** One step of the running server.  A request is handled.  Or a call
    that a suspended closure awaits settles, with any answer or with
    any exception, and the closure runs its next piece.  Or the queue
    is called back and starts what it can, or is ended.  The services
    and the [queue] package are not among the sources: the steps leave
    them every choice, at any moment and in any order. *)
Inductive step : state → state → Prop :=
  | step_request (body : value) (s : state) :
      step s (onWebhook body s).2
  | step_taxonomy (k : nat) (c : closure) (categories : taxonomy)
      (s : state) :
      suspended (queue s) !! k = Some (Flight c AwaitTaxonomy) →
      step s (resume k c (after_taxonomy c categories) s)
  | step_classification (k : nat) (c : closure) (categories : taxonomy)
      (r : classification) (s : state) :
      suspended (queue s) !! k
      = Some (Flight c (AwaitClassification categories)) →
      step s (resume k c (after_classification c categories r) s)
  | step_commit (k : nat) (c : closure)
      (contentId transactions categoryId : value) (s : state) :
      suspended (queue s) !! k
      = Some (Flight c (AwaitCommit contentId transactions categoryId)) →
      step s (resume k c (after_commit c) s)
  | step_failure (k : nat) (f : flight) (e : exn) (s : state) :
      suspended (queue s) !! k = Some f →
      step s (resume k (f_closure f) (throw e) s)
  | step_next (s : state) :
      step s (next s).2
  | step_end (s : state) :
      step s (ended s).

Definition reachable (s : state) : Prop := rtc step initial s.

(** The closures that the queue holds or has started: those that wait
    and those that are suspended. *)
Definition held (s : state) : list closure :=
  waiting (queue s) ++ (f_closure <$> suspended (queue s)).

(** Jobs are numbered by their position; each has a data object of its
    own among the allocated ones; each closure that waits or is
    suspended belongs to a job of the registry and carries a request
    with a [content.id]. *)
Definition well_formed (s : state) : Prop :=
  (∀ i j, jobs s !! i = Some j → id j = i ∧ data j < length (heap s))
  ∧ NoDup (data <$> jobs s)
  ∧ (∀ c, c ∈ held s →
          c_job c < length (jobs s)
          ∧ truthy (c_body c ?. "content" ?. "id") = true).

(** The requests that no rule rejects. *)
Definition accepted (bodies : list value) : list value :=
  filter (λ body, first_violated body = None) bodies.

(** The closure of an accepted request whose job is the [i]-th. *)
Definition closure_of (i : job_id) (body : value) : closure :=
  Closure i (read (first_tx body) "destination_name")
            (read (first_tx body) "description") body.

(** What a socket receives when it connects: [socket.emit('jobs',
    Array.from(this.#jobList.getJobs().values()))]. *)
Definition snapshots (s : state) : list snapshot :=
  snapshot_of s <$> jobs s.

(** An observer that keeps the list it received on connection up to
    date with the events that [run] relays to every socket: a created
    job is added, an updated job replaces the one with its identifier;
    the calls to the services are not relayed. *)
Definition apply_event (view : list snapshot) (a : action) : list snapshot :=
  match a with
  | Emit event sn =>
      if String.eqb event "job created" then view ++ [sn]
      else if String.eqb event "job updated"
      then (λ x, if decide (snap_id x = snap_id sn) then sn else x) <$> view
      else view
  | _ => view
  end.

Definition replay (view : list snapshot) (events : list action)
    : list snapshot :=
  foldl apply_event view events.

(** The snapshots of a view are those of the jobs in their order. *)
Definition numbered (view : list snapshot) : Prop :=
  ∀ k x, view !! k = Some x → snap_id x = k.

(** The events relayed between two stores turn the list sent to a
    socket that connects in the first into the list sent to a socket
    that connects in the second. *)
Definition in_sync (s s' : state) : Prop :=
  ∃ events, trace s' = trace s ++ events
            ∧ replay (snapshots s) events = snapshots s'.

End Server.
Export Server.

(* ===================================================================== *)
(** * More examples                                                       *)
(* ===================================================================== *)

Module Cases.

(** The own properties of the body and of the content of scenario A,
    without [content] and [transactions]. *)
Definition top_A : gmap string value :=
  {[ "trigger" := VStr "STORE_TRANSACTION"; "response" := VStr "TRANSACTIONS" ]}.

Definition content_A : gmap string value := {[ "id" := VStr "1" ]}.

(** The fields of the transaction of scenario A. *)
Definition coffee_fields : gmap string value :=
  {[ "type" := VStr "withdrawal"; "category_id" := VNull;
     "description" := VStr "coffee"; "destination_name" := VStr "Cafe" ]}.

(** A second transaction, a deposit without description. *)
Definition refund : value :=
  Examples.transaction (VStr "deposit") VNull VUndefined (VStr "Shop").

Definition network_down : exn := TypeError "fetch failed".

(** Services whose taxonomy request fails. *)
Definition no_taxonomy : services :=
  Services (Throw network_down)
           (λ _ _ _, Ok (Classification (VStr "Groceries") (VStr "prompt")
                                        (VStr "raw")))
           (λ _ _ _, Ok tt).

(** Services whose classification request fails. *)
Definition no_classification : services :=
  Services (Ok Examples.groceries_taxonomy)
           (λ _ _ _, Throw network_down)
           (λ _ _ _, Ok tt).

(** Services whose commit fails. *)
Definition no_commit : services :=
  Services (Ok Examples.groceries_taxonomy)
           (λ _ _ _, Ok (Classification (VStr "Groceries") (VStr "prompt")
                                        (VStr "raw")))
           (λ _ _ _, Throw network_down).

(** The closure of scenario A received in the initial store, and the
    store in which it is handed to the queue. *)
Definition closure_A : closure :=
  Closure 0 (VStr "Cafe") (VStr "coffee") Examples.scenario_A.

Definition store_A : state :=
  accepted_store Examples.scenario_A Examples.coffee initial.

(** The store after scenario A was received twice in a row: the first
    closure is suspended, the second one waits. *)
Definition closure_A' : closure :=
  Closure 1 (VStr "Cafe") (VStr "coffee") Examples.scenario_A.

Definition store_AA : state :=
  (onWebhook Examples.scenario_A (onWebhook Examples.scenario_A initial).2).2.

End Cases.

(* ===================================================================== *)
(** * Property reads                                                      *)
(* ===================================================================== *)

Lemma get_not_nullish v k : nullish v = false → get v k = Ok (read v k).
Proof. unfold get. by intros ->. Qed.

Lemma get_nullish v k :
  nullish v = true → get v k = Throw (TypeError (cannot_read v k)).
Proof. unfold get. by intros ->. Qed.

Lemma get_opt_not_nullish v k : nullish v = false → v ?. k = read v k.
Proof. unfold get_opt. by intros ->. Qed.

Lemma truthy_not_nullish v : truthy v = true → nullish v = false.
Proof. by destruct v. Qed.

Lemma is_string_not_nullish v lit : is_string v lit = true → nullish v = false.
Proof. by destruct v. Qed.

Lemma get_opt_truthy v k : truthy (v ?. k) = true → nullish v = false.
Proof. unfold get_opt. by destruct (nullish v). Qed.

Lemma path_app v ks ks' :
  path v (ks ++ ks') =
  match path v ks with
  | Ok w => path w ks'
  | Throw e => Throw e
  end.
Proof.
  revert v. induction ks as [|k ks IH]; intros v; simpl; [done|].
  destruct (get v k); [apply IH | done].
Qed.

(** Every field of the first transaction is read through the first
    transaction. *)
Lemma transaction_field_first body k :
  transaction_field body k =
  match first_transaction body with
  | Ok tx => get tx k
  | Throw e => Throw e
  end.
Proof.
  unfold transaction_field, first_transaction.
  change ["content"; "transactions"; "0"; k]
    with (["content"; "transactions"; "0"] ++ [k]).
  rewrite path_app.
  destruct (path body _) as [tx|e]; [|done].
  simpl. by destruct (get tx k).
Qed.

(* ===================================================================== *)
(** * The handler follows the chain                                       *)
(* ===================================================================== *)

Lemma bind_lift_Ok {A B} (a : A) (f : A → M B) s :
  (lift (Ok a) ≫= f) s = f a s.
Proof. reflexivity. Qed.

Lemma bind_eq {A B} (m : M A) (f : A → M B) s a s' :
  m s = (Ok a, s') → (m ≫= f) s = f a s'.
Proof. unfold mbind, M_bind. by intros ->. Qed.

Lemma alter_last {A} (f : A → A) (l : list A) (x : A) :
  alter f (length l) (l ++ [x]) = l ++ [f x].
Proof. by rewrite alter_app_r_alt, Nat.sub_diag by done. Qed.

Lemma lookup_last {A} (l : list A) (x : A) : (l ++ [x]) !! length l = Some x.
Proof. by rewrite lookup_app_r, Nat.sub_diag. Qed.

Lemma bind_throw {A B} (m : M A) (f : A → M B) s e s' :
  m s = (Throw e, s') → (m ≫= f) s = (Throw e, s').
Proof. unfold mbind, M_bind. by intros ->. Qed.

Ltac closure_store :=
  cbn [heap jobs queue trace status id data snapshot_of started];
  unfold merged, snapshot_of, deref; cbn [heap id status data];
  rewrite ?list_insert_insert_eq, ?lookup_last, ?(right_id_L ∅ (∪));
  rewrite <- ?app_assoc; cbn [app]; try reflexivity.

Lemma insert_last {A} (l : list A) (x y : A) :
  <[length l := y]> (l ++ [x]) = l ++ [y].
Proof. by rewrite insert_app_r_alt, Nat.sub_diag by done. Qed.

Lemma bind_lift_Throw {A B} e (f : A → M B) s :
  (lift (Throw e) ≫= f) s = (Throw e, s).
Proof. reflexivity. Qed.

(** [#handleWebhook] is the ordered chain over [rules] followed by the
    creation of the job. *)
Lemma handleWebhook_check body s :
  handleWebhook body s =
  match check rules body with
  | Ok _ => accept body s
  | Throw e => (Throw e, s)
  end.
Proof.
  unfold handleWebhook, rules, check, guard, on_field, transaction_field.
  repeat match goal with
         | |- context [if negb ?b then _ else _] =>
             destruct b; cbn [negb]; try reflexivity
         | |- context [if is_zero ?v then _ else _] =>
             destruct (is_zero v); try reflexivity
         | |- context [lift (path ?v ?ks)] =>
             let E := fresh "E" in
             destruct (path v ks) eqn:E;
             [ rewrite bind_lift_Ok | rewrite bind_lift_Throw; reflexivity ]
         end.
  unfold accept, create, transaction_field.
  repeat match goal with
         | E : path _ _ = Ok _ |- _ => rewrite E; clear E
         end.
  reflexivity.
Qed.

Lemma get_Ok v k w : get v k = Ok w → nullish v = false ∧ w = read v k.
Proof. unfold get. destruct (nullish v); [done|]. by intros [= <-]. Qed.

Lemma on_field_Ok body k test b :
  on_field body k test = Ok b →
  ∃ tx, first_transaction body = Ok tx ∧ nullish tx = false
        ∧ b = test (read tx k).
Proof.
  unfold on_field. rewrite transaction_field_first.
  destruct (first_transaction body) as [tx|e]; [|done].
  destruct (get tx k) as [w|e] eqn:E; [|done].
  apply get_Ok in E as [Hn ->]. intros [= <-]. by exists tx.
Qed.

Lemma on_field_first body k test tx :
  first_transaction body = Ok tx → nullish tx = false →
  on_field body k test = Ok (test (read tx k)).
Proof.
  intros Hf Hn. unfold on_field.
  by rewrite transaction_field_first, Hf, get_not_nullish.
Qed.

(** The guards of rules 4 to 7 throw together: each reads a field of the
    same first transaction. *)
Lemma on_field_Throw body k test e k' test' :
  on_field body k test = Throw e →
  ∃ e', on_field body k' test' = Throw e'.
Proof.
  unfold on_field. rewrite !transaction_field_first.
  destruct (first_transaction body) as [tx|e0]; [|by eexists].
  unfold get. destruct (nullish tx); [by eexists | done].
Qed.

Lemma rules_split r : ∃ later, rules = earlier r ++ r :: later.
Proof. destruct r; eexists; reflexivity. Qed.

Lemma check_first pre r later body :
  Forall (λ r', guard r' body = Ok false) pre →
  guard r body = Ok true →
  check (pre ++ r :: later) body = Throw (WebhookException (rule_message r)).
Proof.
  intros Hpre Hr. induction Hpre as [|r' pre Hr' _ IH]; simpl.
  - by rewrite Hr.
  - by rewrite Hr'.
Qed.

Lemma check_all rs body :
  Forall (λ r, guard r body = Ok false) rs → check rs body = Ok tt.
Proof. induction 1 as [|r rs Hr _ IH]; simpl; [done | by rewrite Hr]. Qed.

Ltac refute_earlier H :=
  apply list_elem_of_In in H; vm_compute in H; intuition discriminate.

(** Before a guard that fires, a guard that does not fire lets the
    payload through: it cannot throw. *)
Lemma not_fired_passes body r r' :
  fires r body → r' ∈ earlier r → ¬ fires r' body →
  guard r' body = Ok false.
Proof.
  unfold fires. intros Hv Hin Hn.
  destruct (guard r' body) as [[|]|e] eqn:E; [done | done | exfalso].
  destruct r'; try discriminate E;
    (destruct r; try (by refute_earlier Hin);
     cbn [guard] in E, Hv;
     eapply on_field_Throw in E as [e' E]; rewrite E in Hv; discriminate Hv).
Qed.

(** The first guard that fires ends the chain with its exception. *)
Lemma first_fired_check body r :
  fires r body →
  Forall (λ r', ¬ fires r' body) (earlier r) →
  check rules body = Throw (WebhookException (rule_message r)).
Proof.
  intros Hv Hpre. destruct (rules_split r) as [later ->].
  apply check_first; [|exact Hv].
  rewrite Forall_forall in Hpre |- *. intros r' Hin.
  eapply not_fired_passes; eauto.
Qed.

Lemma passes_check body : passes body → check rules body = Ok tt.
Proof. intros H. apply check_all, Forall_forall. intros r _. apply H. Qed.

Lemma get_opt_present v k : nullish (v ?. k) = false → nullish v = false.
Proof. unfold get_opt. by destruct (nullish v). Qed.

(** With a first transaction, the plain reads of the handler find what
    the optional reads find. *)
Lemma first_transaction_present body :
  has_first_transaction body →
  first_transaction body = Ok (first_tx body).
Proof.
  unfold has_first_transaction, first_tx, first_transaction.
  intros H0.
  pose proof (get_opt_present _ _ H0) as Ht.
  pose proof (get_opt_present _ _ Ht) as Hc.
  pose proof (get_opt_present _ _ Hc) as Hb.
  cbn [path].
  rewrite (get_not_nullish body), <- (get_opt_not_nullish body) by done.
  rewrite (get_not_nullish (body ?. "content")),
    <- (get_opt_not_nullish (body ?. "content")) by done.
  by rewrite get_not_nullish, <- get_opt_not_nullish.
Qed.

(** A guard that can be evaluated has the value of [violates]: always
    for the first four rules, and with a first transaction for the
    others. *)
Lemma guard_violates body r :
  (reads_first_transaction r = true → has_first_transaction body) →
  guard r body = Ok (violates r body).
Proof.
  intros H. destruct r; try reflexivity;
    (specialize (H eq_refl); cbn [guard violates];
     rewrite (on_field_first _ _ _ (first_tx body))
       by (by apply first_transaction_present || exact H);
     by rewrite get_opt_not_nullish by exact H).
Qed.

(** A payload for which no condition holds has a first transaction
    and gets past every guard. *)
Lemma no_violation_passes body :
  first_violated body = None →
  has_first_transaction body ∧ passes body.
Proof.
  unfold first_violated, rules. cbn [first_of]. intros Hf.
  repeat match type of Hf with
         | (if violates ?r0 body then _ else _) = _ =>
             let E := fresh "E" in
             destruct (violates r0 body) eqn:E; [discriminate Hf |]
         end.
  assert (has_first_transaction body) as Hpres.
  { pose proof E3 as Ht. cbn [violates] in Ht.
    apply negb_false_iff in Ht.
    eapply get_opt_present, is_string_not_nullish, Ht. }
  split; [exact Hpres|]. intros r.
  rewrite guard_violates by (intros _; exact Hpres).
  destruct r; congruence.
Qed.

(* ===================================================================== *)
(** * Validation                                                          *)
(* ===================================================================== *)

(** C1: the payload of scenario A whose [transactions] is [null] breaks
    the rule on the transaction list and, having no first transaction,
    the rules on its type, description and destination name; the first
    rule it breaks is the rule on the transaction list.  The guard of
    that rule compares [undefined] with 0 and lets the payload through;
    the next guard reads [transactions[0]] without the optional
    chaining of the guards before it and throws.  The request is
    rejected with the message of that [TypeError], which is the message
    of no rule, whatever the store. *)
Theorem first_violated_rule_not_reported :
  Spec.first_broken Examples.null_list = Some RTransactions
  ∧ Spec.breaks RType Examples.null_list = true
  ∧ Spec.breaks RDescription Examples.null_list = true
  ∧ Spec.breaks RDestinationName Examples.null_list = true
  ∧ guard RTransactions Examples.null_list = Ok false
  ∧ (∀ s, handleWebhook Examples.null_list s =
          (Throw (TypeError "Cannot read properties of null (reading '0')"),
           s))
  ∧ (∀ r, "Cannot read properties of null (reading '0')" ≠ rule_message r)
  ∧ ¬ Spec.reports_first_violation Examples.null_list.
Proof.
  assert (∀ s, handleWebhook Examples.null_list s =
               (Throw (TypeError
                         "Cannot read properties of null (reading '0')"), s))
    as Hh by (intros s; by rewrite handleWebhook_check).
  split_and!; try reflexivity; try exact Hh.
  - intros r. destruct r; discriminate.
  - intros H. specialize (H RTransactions initial eq_refl).
    rewrite Hh in H. discriminate H.
Qed.

Lemma get_opt_nullish_undefined v k : nullish v = true → v ?. k = VUndefined.
Proof. unfold get_opt. by intros ->. Qed.

(** Once [content.id] is known to be truthy, a plain read of a property
    of [req.body.content] is the optional read. *)
Lemma path_content body k :
  truthy (body ?. "content" ?. "id") = true →
  path body ["content"; k] = Ok (body ?. "content" ?. k).
Proof.
  intros Hid. pose proof (get_opt_truthy _ _ Hid) as Hc.
  assert (nullish body = false) as Hb.
  { destruct (nullish body) eqn:E; [|done].
    by rewrite (get_opt_nullish_undefined body) in Hc. }
  simpl. rewrite (get_not_nullish body), <- (get_opt_not_nullish body) by done.
  by rewrite get_not_nullish, <- get_opt_not_nullish.
Qed.

Lemma guard_content_id body :
  guard RContentId body = Ok false → truthy (body ?. "content" ?. "id") = true.
Proof. cbn [guard]. intros [= H]. by apply negb_false_iff. Qed.

(** A payload with a [content.id] and no [content.transactions] gets
    past the first four rules and then fails in the read of
    [transactions[0]]. *)
Lemma lacking_transactions_throws body s :
  guard RTrigger body = Ok false →
  guard RResponse body = Ok false →
  guard RContentId body = Ok false →
  Spec.lacks_transactions body →
  handleWebhook body s =
  (Throw (TypeError "Cannot read properties of undefined (reading '0')"), s).
Proof.
  intros H1 H2 H3 Hl. rewrite handleWebhook_check.
  unfold rules. cbn [check]. rewrite H1, H2, H3.
  apply guard_content_id in H3.
  cbn [guard]. rewrite Hl. cbn [get_opt nullish is_zero].
  unfold on_field, transaction_field.
  change ["content"; "transactions"; "0"; "type"]
    with (["content"; "transactions"] ++ ["0"; "type"]).
  rewrite path_app, path_content, Hl by done.
  reflexivity.
Qed.

(** C2: the payload of scenario A without [content.transactions] lacks
    the transaction list, yet no rule rejects it: the guard of the rule
    on the transaction list compares [undefined] with 0 and lets it
    through, and the request is answered with the message of the
    [TypeError] of the next read, which is the message of no rule.  No
    job is created. *)
Theorem missing_transactions_not_named :
  Spec.lacks_transactions Examples.without_transactions
  ∧ guard RTransactions Examples.without_transactions = Ok false
  ∧ onWebhook Examples.without_transactions initial =
    (HttpResponse 400 "Cannot read properties of undefined (reading '0')",
     initial)
  ∧ ∀ r, "Cannot read properties of undefined (reading '0')"
         ≠ rule_message r.
Proof.
  split; [reflexivity|]. split; [reflexivity|]. split.
  - unfold onWebhook. by rewrite lacking_transactions_throws.
  - intros r. destruct r; discriminate.
Qed.

(* ===================================================================== *)
(** * The endpoint                                                        *)
(* ===================================================================== *)

Lemma handleWebhook_outcome body s :
  handleWebhook body s = accept body s ∧ check rules body = Ok tt
  ∨ ∃ e, handleWebhook body s = (Throw e, s) ∧ check rules body = Throw e.
Proof.
  rewrite handleWebhook_check.
  destruct (check rules body) as [[]|e]; [by left | right; by exists e].
Qed.

(** After the chain every field of the first transaction can be read. *)
Lemma check_first_transaction body :
  check rules body = Ok tt →
  ∃ tx, first_transaction body = Ok tx ∧ nullish tx = false
        ∧ truthy (read tx "description") = true
        ∧ truthy (read tx "destination_name") = true
        ∧ truthy (body ?. "content" ?. "id") = true.
Proof.
  unfold rules. cbn [check].
  repeat match goal with
         | |- context [guard ?r body] =>
             let E := fresh "E" in
             destruct (guard r body) as [[|]|?] eqn:E; try discriminate
         end.
  intros _. apply guard_content_id in E1.
  cbn [guard] in E3, E5, E6.
  apply on_field_Ok in E3 as (tx & Hf & Hn & _).
  rewrite (on_field_first _ _ _ tx) in E5 by done.
  rewrite (on_field_first _ _ _ tx) in E6 by done.
  exists tx. repeat split; try done.
  - injection E5 as E5. by apply negb_false_iff in E5.
  - injection E6 as E6. by apply negb_false_iff in E6.
Qed.

(** What [start] does, case by case. *)
Lemma start_store s : start s = (Ok tt, started_store s).
Proof.
  unfold start, started_store.
  destruct (free (queue s)); [|done].
  destruct (waiting (queue s)) as [|c rest]; [done|].
  unfold begin, JobList.setJobInProgress, JobList.update, mbind, M_bind,
    set_queue.
  cbn [heap jobs queue trace].
  destruct (jobs s !! c_job c) as [j|]; [|done].
  cbn. by rewrite <- app_assoc.
Qed.

Lemma queue_push_store c s :
  queue_push c s =
  (Ok tt,
   started_store (set_queue (QueueState (waiting (queue s) ++ [c])
                                        (pending (queue s))
                                        (suspended (queue s))) s)).
Proof. unfold queue_push. cbn [queue_config autostart]. apply start_store. Qed.

(** [start] touches no data object and no job but, at most, the one of
    the closure it takes, which keeps its identifier and its data. *)
Lemma started_store_frame s :
  heap (started_store s) = heap s
  ∧ length (jobs (started_store s)) = length (jobs s)
  ∧ ∀ i j, jobs s !! i = Some j →
      ∃ j', jobs (started_store s) !! i = Some j'
            ∧ id j' = id j ∧ data j' = data j
            ∧ (status j' = status j ∨ status j' = InProgress).
Proof.
  unfold started_store.
  destruct (free (queue s)); [|by eauto 10].
  destruct (waiting (queue s)) as [|c rest]; [by eauto 10|].
  destruct (jobs s !! c_job c) as [j0|] eqn:Hj0; [|by eauto 10].
  cbn [heap jobs]. split_and!; [done | by rewrite length_insert |].
  intros i j Hj. destruct (decide (i = c_job c)) as [->|Hne].
  - unfold job_id in *. assert (j = j0) as -> by congruence.
    exists (started j0).
    rewrite list_lookup_insert_eq by (by eapply lookup_lt_Some).
    unfold started. destruct (status j0); cbn; auto.
  - exists j. rewrite list_lookup_insert_ne by done. auto.
Qed.

(** Lines 136 to 142 on a payload with a first transaction. *)
Lemma create_store body tx s :
  first_transaction body = Ok tx → nullish tx = false →
  create body s =
  (Ok (Closure (length (jobs s)) (read tx "destination_name")
               (read tx "description") body),
   created_store body tx s).
Proof.
  intros Hf Hn. unfold create.
  rewrite !transaction_field_first, Hf, !get_not_nullish by done.
  rewrite !bind_lift_Ok.
  unfold created_store, mbind, M_bind, alloc, JobList.createJob, mret, M_ret,
    snapshot_of, deref; cbn.
  by rewrite lookup_app_r, Nat.sub_diag by done.
Qed.

Lemma accept_store body tx s :
  first_transaction body = Ok tx → nullish tx = false →
  accept body s = (Ok tt, started_store (accepted_store body tx s)).
Proof.
  intros Hf Hn. unfold accept.
  erewrite bind_eq by (by apply create_store).
  by rewrite queue_push_store.
Qed.

(** With every slot taken, the closure waits. *)
Lemma accepted_started_busy body tx s :
  free (queue s) = false →
  started_store (accepted_store body tx s) = accepted_store body tx s.
Proof.
  intros Hb. unfold started_store, free in *.
  cbn [accepted_store queue pending]. by rewrite Hb.
Qed.

(** With a free slot and nothing that waits, the closure is started. *)
Lemma accepted_started_free body tx s :
  free (queue s) = true → waiting (queue s) = [] →
  started_store (accepted_store body tx s) = begun_store body tx s.
Proof.
  intros Hb Hw. unfold started_store, free in *.
  cbn [accepted_store queue pending waiting suspended jobs heap trace].
  rewrite Hb, Hw. cbn [app c_job].
  rewrite lookup_last. unfold begun_store, started, snapshot_of, deref.
  cbn [id status data heap accepted_store].
  rewrite lookup_last, insert_last. cbn [default].
  by rewrite <- app_assoc.
Qed.

Lemma passes_accepts body s :
  passes body →
  ∃ tx, first_transaction body = Ok tx ∧ nullish tx = false
        ∧ handleWebhook body s =
          (Ok tt, started_store (accepted_store body tx s)).
Proof.
  intros Hp. pose proof (passes_check body Hp) as Hc.
  destruct (check_first_transaction body Hc) as (tx & Hf & Hn & _).
  exists tx. repeat split; try done.
  rewrite handleWebhook_check, Hc. by apply accept_store.
Qed.

(** C3: a payload that passes every rule creates exactly one job.
    Lines 136 to 142 call [createJob] once, with a fresh object that
    has the two keys [destinationName] and [description] and no other,
    holding the [destination_name] and the [description] of the first
    transaction; the job enters the registry with status [Created],
    which is what the [job created] event shows.  The closure that
    captures the job is then pushed, and when the handler returns the
    registry still has that one job more, with the same data: the job
    is [Created] if every slot of the queue was taken, and already
    [InProgress] if [push] could start its closure. *)
Theorem accepted_payload_creates_one_job body s :
  first_violated body = None →
  ∃ tx c s0 j s' j',
    first_transaction body = Ok tx
    ∧ create body s = (Ok c, s0)
    ∧ JobList.getJobs s0 = JobList.getJobs s ++ [j]
    ∧ status j = Created
    ∧ dom (deref s0 (data j)) = {[ "destinationName"; "description" ]}
    ∧ deref s0 (data j) !! "destinationName" = Some (read tx "destination_name")
    ∧ deref s0 (data j) !! "description" = Some (read tx "description")
    ∧ trace s0 =
      trace s ++ [Emit "job created"
                    (Snapshot (id j) Created (deref s0 (data j)))]
    ∧ c_job c = id j
    ∧ handleWebhook body s = queue_push c s0
    ∧ handleWebhook body s = (Ok tt, s')
    ∧ length (JobList.getJobs s') = S (length (JobList.getJobs s))
    ∧ JobList.getJobs s' !! id j = Some j'
    ∧ id j' = id j
    ∧ deref s' (data j') = deref s0 (data j)
    ∧ (free (queue s) = false → status j' = Created)
    ∧ (free (queue s) = true → waiting (queue s) = [] →
       status j' = InProgress).
Proof.
  intros Hv. apply no_violation_passes in Hv as [_ Hp].
  destruct (passes_accepts body s Hp) as (tx & Hf & Hn & Hh).
  set (j := Job (length (jobs s)) Created (length (heap s))).
  set (c := Closure (length (jobs s)) (read tx "destination_name")
                    (read tx "description") body).
  assert (deref (created_store body tx s) (data j)
          = {[ "destinationName" := read tx "destination_name";
               "description" := read tx "description" ]}) as Hd.
  { unfold deref, created_store; cbn. by rewrite lookup_last. }
  assert (jobs (accepted_store body tx s) !! length (jobs s) = Some j) as Hj
    by (unfold accepted_store; cbn [jobs]; by rewrite lookup_last).
  destruct (started_store_frame (accepted_store body tx s))
    as (Hheap & Hlen & Hjobs).
  destruct (Hjobs _ _ Hj) as (j' & Hj' & Hid & Hdata & Hst).
  exists tx, c, (created_store body tx s), j,
    (started_store (accepted_store body tx s)), j'.
  split_and!; try done.
  - by apply create_store.
  - rewrite Hd, dom_insert_L, dom_singleton_L. set_solver.
  - by rewrite Hd, lookup_insert_eq.
  - by rewrite Hd, lookup_insert_ne, lookup_singleton_eq.
  - unfold created_store at 1. cbn [trace id j]. by rewrite Hd.
  - by rewrite Hh, queue_push_store.
  - unfold JobList.getJobs. rewrite Hlen. unfold accepted_store.
    cbn [jobs]. rewrite length_app. cbn [length]. lia.
  - unfold deref. by rewrite Hdata, Hheap.
  - intros Hb. rewrite accepted_started_busy in Hj' by done.
    rewrite Hj in Hj'. by injection Hj' as <-.
  - intros Hb Hw. rewrite accepted_started_free in Hj' by done.
    unfold begun_store in Hj'. cbn [jobs] in Hj'.
    rewrite lookup_last in Hj'. by injection Hj' as <-.
Qed.

Lemma accepted_payload_creates_one_job_witness :
  ∃ tx c s0 j s' j',
    first_transaction Examples.scenario_A = Ok tx
    ∧ create Examples.scenario_A initial = (Ok c, s0)
    ∧ JobList.getJobs s0 = JobList.getJobs initial ++ [j]
    ∧ status j = Created
    ∧ dom (deref s0 (data j)) = {[ "destinationName"; "description" ]}
    ∧ deref s0 (data j) !! "destinationName" = Some (read tx "destination_name")
    ∧ deref s0 (data j) !! "description" = Some (read tx "description")
    ∧ trace s0 =
      trace initial ++ [Emit "job created"
                          (Snapshot (id j) Created (deref s0 (data j)))]
    ∧ c_job c = id j
    ∧ handleWebhook Examples.scenario_A initial = queue_push c s0
    ∧ handleWebhook Examples.scenario_A initial = (Ok tt, s')
    ∧ length (JobList.getJobs s') = S (length (JobList.getJobs initial))
    ∧ JobList.getJobs s' !! id j = Some j'
    ∧ id j' = id j
    ∧ deref s' (data j') = deref s0 (data j)
    ∧ (free (queue initial) = false → status j' = Created)
    ∧ (free (queue initial) = true → waiting (queue initial) = [] →
       status j' = InProgress).
Proof.
  apply (accepted_payload_creates_one_job Examples.scenario_A initial).
  reflexivity.
Defined.

(** C9: the payload of scenario A without [content.transactions] fails
    validation, the first rule it breaks being the rule on the
    transaction list; whatever the store, the endpoint answers 400 and
    stores nothing, but the text it sends is the message of the
    [TypeError] of the read of [transactions[0]], not the message of the
    rule. *)
Theorem missing_list_answer_is_no_rule_message :
  Spec.first_broken Examples.without_transactions = Some RTransactions
  ∧ (∀ s, onWebhook Examples.without_transactions s =
          (HttpResponse 400
             "Cannot read properties of undefined (reading '0')", s))
  ∧ "Cannot read properties of undefined (reading '0')"
    ≠ rule_message RTransactions
  ∧ ¬ Spec.answers_rule_message Examples.without_transactions.
Proof.
  assert (∀ s, onWebhook Examples.without_transactions s =
               (HttpResponse 400
                  "Cannot read properties of undefined (reading '0')", s))
    as Hh.
  { intros s. unfold onWebhook. by rewrite lacking_transactions_throws. }
  split_and!; [reflexivity | exact Hh | discriminate |].
  intros H. specialize (H RTransactions initial eq_refl).
  rewrite Hh in H. discriminate H.
Qed.

(** C10: [#onWebhook] answers every request.  Either [#handleWebhook]
    returns and the answer is 200 [Queued], or it throws, whatever the
    exception, and the answer is 400 with the message of that exception,
    the store being what it was before the request: no job, no closure.
    A payload that gets past the first rules without a
    [content.transactions] is such a case: the exception is the
    [TypeError] of the read of [transactions[0]]. *)
Theorem webhook_catches_every_exception body s :
  ((∃ s', handleWebhook body s = (Ok tt, s')
          ∧ onWebhook body s = (HttpResponse 200 "Queued", s'))
   ∨ (∃ e, handleWebhook body s = (Throw e, s)
           ∧ onWebhook body s = (HttpResponse 400 (message e), s)))
  ∧ (guard RTrigger body = Ok false →
     guard RResponse body = Ok false →
     guard RContentId body = Ok false →
     Spec.lacks_transactions body →
     handleWebhook body s =
     (Throw (TypeError "Cannot read properties of undefined (reading '0')"), s)
     ∧ onWebhook body s =
       (HttpResponse 400 "Cannot read properties of undefined (reading '0')", s)).
Proof.
  split.
  - unfold onWebhook.
    destruct (handleWebhook_outcome body s) as [[Hh Hc] | (e & Hh & _)].
    + left. destruct (check_first_transaction body Hc) as (tx & Hf & Hn & _).
      rewrite Hh, (accept_store body tx) by done. by eexists.
    + right. exists e. by rewrite Hh.
  - intros H1 H2 H3 Hl. unfold onWebhook.
    by rewrite lacking_transactions_throws.
Qed.

Lemma webhook_catches_every_exception_witness :
  handleWebhook Examples.without_transactions initial =
  (Throw (TypeError "Cannot read properties of undefined (reading '0')"),
   initial)
  ∧ onWebhook Examples.without_transactions initial =
    (HttpResponse 400 "Cannot read properties of undefined (reading '0')",
     initial).
Proof.
  apply (webhook_catches_every_exception Examples.without_transactions initial);
    reflexivity.
Defined.

(* ===================================================================== *)
(** * Rule 5: the category of the first transaction                       *)
(* ===================================================================== *)

Lemma Forall_earlier_category body :
  Forall (λ r, guard r body = Ok false) (earlier RCategory) →
  guard RTrigger body = Ok false ∧ guard RResponse body = Ok false
  ∧ guard RContentId body = Ok false ∧ guard RTransactions body = Ok false
  ∧ guard RType body = Ok false.
Proof.
  change (earlier RCategory)
    with [RTrigger; RResponse; RContentId; RTransactions; RType].
  rewrite !Forall_cons. tauto.
Qed.

(** C6 as stated fails: the payload of scenario A without a
    [category_id] property has an unset category and is rejected by
    rule 5. *)
Lemma absent_category_id_is_rejected :
  ¬ Spec.rule5_as_stated Examples.without_category_id
  ∧ onWebhook Examples.without_category_id initial =
    (HttpResponse 400
       "content.transactions[0].category_id is already set. Transaction will be ignored.",
     initial).
Proof.
  split; [|reflexivity].
  intros H. specialize (H _ eq_refl). vm_compute in H. discriminate H.
Qed.

(** C6, amended: rule 5 compares [category_id] with [null].  For a
    payload with a first transaction, its guard lets the payload through
    exactly when [category_id] is [null]; any other value, [undefined]
    for an absent property included, makes it fire, and a payload that
    got past the rules before it is then rejected with the message of
    rule 5, and only then. *)
Theorem rule5_rejects_unless_null body s tx :
  first_transaction body = Ok tx →
  nullish tx = false →
  guard RCategory body = Ok (negb (is_null (read tx "category_id")))
  ∧ (Forall (λ r, guard r body = Ok false) (earlier RCategory) →
     (is_null (read tx "category_id") = false
      ↔ handleWebhook body s =
        (Throw (WebhookException (rule_message RCategory)), s))).
Proof.
  intros Hf Hn.
  assert (guard RCategory body = Ok (negb (is_null (read tx "category_id"))))
    as Hg by (cbn [guard]; by rewrite (on_field_first _ _ _ tx)).
  split; [exact Hg|]. intros Hpre.
  apply Forall_earlier_category in Hpre as (H1 & H2 & H3 & H4 & H5).
  rewrite handleWebhook_check. unfold rules. cbn [check].
  rewrite H1, H2, H3, H4, H5, Hg.
  destruct (is_null (read tx "category_id")); cbn [negb]; [|done].
  split; [done|]. intros Hh. exfalso.
  cbn [guard] in Hh.
  rewrite !(on_field_first _ _ _ tx) in Hh by done. cbn beta in Hh.
  destruct (negb (truthy (read tx "description"))); [discriminate Hh|].
  destruct (negb (truthy (read tx "destination_name"))); [discriminate Hh|].
  rewrite (accept_store body tx) in Hh by done. discriminate Hh.
Qed.

Lemma rule5_rejects_unless_null_witness :
  guard RCategory Examples.with_category = Ok true
  ∧ handleWebhook Examples.with_category initial =
    (Throw (WebhookException
       "content.transactions[0].category_id is already set. Transaction will be ignored."),
     initial)
  ∧ guard RCategory Examples.scenario_A = Ok false.
Proof.
  split; [|split].
  - apply (rule5_rejects_unless_null Examples.with_category initial
             (Examples.transaction (VStr "withdrawal")
                (VNum (S754_finite false 7 0)) (VStr "coffee") (VStr "Cafe")));
      reflexivity.
  - apply (rule5_rejects_unless_null Examples.with_category initial
             (Examples.transaction (VStr "withdrawal")
                (VNum (S754_finite false 7 0)) (VStr "coffee") (VStr "Cafe")));
      try reflexivity.
    repeat constructor.
  - apply (rule5_rejects_unless_null Examples.scenario_A initial Examples.coffee);
      reflexivity.
Defined.

(* ===================================================================== *)
(** * The queued closure                                                  *)
(* ===================================================================== *)

Lemma update_known i g s j :
  jobs s !! i = Some j →
  JobList.update i g s =
  (Ok tt, State (heap s) (<[i := g j]> (jobs s)) (queue s)
                (trace s ++ [Emit "job updated" (snapshot_of s (g j))])).
Proof. unfold JobList.update. by intros ->. Qed.

Lemma job_data_known i s j :
  jobs s !! i = Some j → job_data i s = (Ok (data j), s).
Proof. unfold job_data. by intros ->. Qed.

Lemma fetch_categories_answer svc categories s :
  getCategories svc = Ok categories →
  fetch_categories svc s =
  (Ok categories,
   State (heap s) (jobs s) (queue s) (trace s ++ [GetCategories])).
Proof. unfold fetch_categories, mbind, M_bind, log, lift. by intros ->. Qed.

Lemma request_classification_answer svc names dn d r s :
  classify svc names dn d = Ok r →
  request_classification svc names dn d s =
  (Ok r, State (heap s) (jobs s) (queue s) (trace s ++ [Classify names dn d])).
Proof.
  unfold request_classification, mbind, M_bind, log, lift. by intros ->.
Qed.

Lemma commit_category_answer svc i t c s :
  setCategory svc i t c = Ok tt →
  commit_category svc i t c s =
  (Ok tt, State (heap s) (jobs s) (queue s) (trace s ++ [SetCategory i t c])).
Proof. unfold commit_category, mbind, M_bind, log, lift. by intros ->. Qed.

(** A fresh empty object does not change what an address refers to. *)
Lemma deref_alloc_empty h js q t l :
  deref (State (h ++ [∅]) js q t) l = deref (State h js q t) l.
Proof.
  unfold deref; cbn. destruct (decide (l < length h)) as [Hlt|Hge].
  - by rewrite lookup_app_l.
  - rewrite (lookup_ge_None_2 h) by lia.
    destruct (decide (l = length h)) as [->|Hne].
    + by rewrite lookup_last.
    + rewrite lookup_ge_None_2; [done|]. rewrite length_app; simpl; lia.
Qed.

(** One run of the closure, from its first statement to its last, when
    the services answer. *)
Lemma run_closure_finishes svc c s j categories r :
  jobs s !! c_job c = Some j →
  status j = Created →
  truthy (c_body c ?. "content" ?. "id") = true →
  answers svc c categories r →
  run_closure svc c s = (Ok tt, finished_store c j categories r s).
Proof.
  intros Hj Hst Hid (Hcats & Hr & Hset).
  destruct s as [h js q t], j as [ji jst jd]; cbn in Hj, Hst; subst jst.
  pose proof (lookup_lt_Some _ _ _ Hj) as Hlt.
  unfold run_closure, finished_store, steps.
  unfold JobList.setJobInProgress, JobList.updateJobData,
    JobList.setJobFinished.
  erewrite bind_eq by (by apply update_known).
  erewrite bind_eq by (by apply fetch_categories_answer).
  erewrite bind_eq by (by apply request_classification_answer).
  erewrite bind_eq by reflexivity.
  erewrite bind_eq
    by (apply job_data_known; cbn; by apply list_lookup_insert_eq).
  cbn [data].
  erewrite bind_eq by reflexivity.
  erewrite bind_eq by reflexivity.
  erewrite bind_eq by reflexivity.
  erewrite bind_eq by reflexivity.
  cbn [heap jobs queue trace status id data snapshot_of].
  rewrite deref_alloc_empty, !alter_last.
  erewrite bind_eq
    by (apply update_known; cbn; by apply list_lookup_insert_eq).
  cbn [heap jobs queue trace status id data snapshot_of].
  rewrite list_insert_insert_eq.
  destruct (truthy (category r)) eqn:Htr.
  - erewrite bind_eq; cycle 1.
    { rewrite !path_content by done. rewrite !bind_lift_Ok.
      apply commit_category_answer. by apply Hset. }
    erewrite update_known by (cbn; by apply list_lookup_insert_eq).
    cbn [heap jobs queue trace status id data snapshot_of].
    unfold merged, snapshot_of, deref; cbn [heap id status data].
    rewrite list_insert_insert_eq, !lookup_last, (right_id_L ∅ (∪)).
    rewrite <- !app_assoc. reflexivity.
  - erewrite bind_eq by reflexivity.
    erewrite update_known by (cbn; by apply list_lookup_insert_eq).
    cbn [heap jobs queue trace status id data snapshot_of].
    unfold merged, snapshot_of, deref; cbn [heap id status data].
    rewrite list_insert_insert_eq, !lookup_last, (right_id_L ∅ (∪)).
    rewrite <- !app_assoc. reflexivity.
Qed.

Lemma fetch_categories_throw svc e s :
  getCategories svc = Throw e →
  fetch_categories svc s =
  (Throw e, State (heap s) (jobs s) (queue s) (trace s ++ [GetCategories])).
Proof. unfold fetch_categories, mbind, M_bind, log, lift. by intros ->. Qed.

Lemma request_classification_throw svc names dn d e s :
  classify svc names dn d = Throw e →
  request_classification svc names dn d s =
  (Throw e,
   State (heap s) (jobs s) (queue s) (trace s ++ [Classify names dn d])).
Proof.
  unfold request_classification, mbind, M_bind, log, lift. by intros ->.
Qed.

Lemma commit_category_throw svc i t c e s :
  setCategory svc i t c = Throw e →
  commit_category svc i t c s =
  (Throw e,
   State (heap s) (jobs s) (queue s) (trace s ++ [SetCategory i t c])).
Proof. unfold commit_category, mbind, M_bind, log, lift. by intros ->. Qed.

Lemma run_closure_unknown svc c s :
  jobs s !! c_job c = None →
  run_closure svc c s = (Throw (TypeError "unknown job id"), s).
Proof.
  intros Hj. unfold run_closure, JobList.setJobInProgress.
  apply bind_throw. unfold JobList.update. by rewrite Hj.
Qed.

(** A run of the closure on its job is one of the cases of
    [closure_outcome]. *)
Lemma run_closure_outcome svc c s j :
  jobs s !! c_job c = Some j →
  run_closure svc c s = closure_outcome svc c j s.
Proof.
  intros Hj. destruct s as [h js q t]. cbn in Hj.
  pose proof (lookup_lt_Some _ _ _ Hj) as Hlt.
  unfold run_closure, closure_outcome.
  unfold JobList.setJobInProgress, JobList.updateJobData,
    JobList.setJobFinished.
  erewrite bind_eq by (by apply update_known).
  fold (started j).
  destruct (getCategories svc) as [categories|e] eqn:Hcats.
  2: { erewrite bind_throw by (apply fetch_categories_throw; exact Hcats).
       closure_store. }
  erewrite bind_eq by (by apply fetch_categories_answer).
  destruct (classify svc (keys categories) (c_destinationName c)
              (c_description c)) as [r|e] eqn:Hr.
  2: { erewrite bind_throw by (apply request_classification_throw; exact Hr).
       closure_store. }
  erewrite bind_eq by (by apply request_classification_answer).
  erewrite bind_eq by reflexivity.
  erewrite bind_eq
    by (apply job_data_known; cbn; by apply list_lookup_insert_eq).
  erewrite bind_eq by reflexivity.
  erewrite bind_eq by reflexivity.
  erewrite bind_eq by reflexivity.
  erewrite bind_eq by reflexivity.
  cbn [heap jobs queue trace status id data snapshot_of started].
  rewrite deref_alloc_empty, !alter_last.
  erewrite bind_eq
    by (apply update_known; cbn; by apply list_lookup_insert_eq).
  cbn [heap jobs queue trace status id data snapshot_of].
  rewrite list_insert_insert_eq.
  destruct (truthy (category r)) eqn:Htr.
  2: { erewrite bind_eq by reflexivity.
       erewrite update_known by (cbn; by apply list_lookup_insert_eq).
       closure_store. }
  destruct (path (c_body c) ["content"; "id"]) as [contentId|e] eqn:Hid.
  2: { erewrite bind_throw by (rewrite bind_lift_Throw; reflexivity).
       closure_store. }
  destruct (path (c_body c) ["content"; "transactions"])
    as [transactions|e] eqn:Htx.
  2: { erewrite bind_throw
         by (rewrite bind_lift_Ok, bind_lift_Throw; reflexivity).
       closure_store. }
  destruct (setCategory svc contentId transactions
              (map_get categories (category r))) as [[]|e] eqn:Hset.
  2: { erewrite bind_throw
         by (rewrite !bind_lift_Ok; apply commit_category_throw; exact Hset).
       closure_store. }
  erewrite bind_eq
    by (rewrite !bind_lift_Ok; apply commit_category_answer; exact Hset).
  erewrite update_known by (cbn; by apply list_lookup_insert_eq).
  closure_store.
Qed.

(** The first piece of the closure on a job of the registry. *)
Lemma begin_known c s j :
  jobs s !! c_job c = Some j →
  begin c s =
  (Ok AwaitTaxonomy,
   State (heap s) (<[c_job c := started j]> (jobs s)) (queue s)
         (trace s ++ [Emit "job updated" (snapshot_of s (started j));
                      GetCategories])).
Proof.
  intros Hj. unfold begin, JobList.setJobInProgress.
  erewrite bind_eq by (by apply update_known).
  unfold mbind, M_bind, log, mret, M_ret; cbn. by rewrite <- app_assoc.
Qed.

Lemma begin_unknown c s :
  jobs s !! c_job c = None →
  begin c s = (Throw (TypeError "unknown job id"), s).
Proof.
  intros Hj. unfold begin, JobList.setJobInProgress, JobList.update,
    mbind, M_bind.
  by rewrite Hj.
Qed.

(** The piece that records the classification, case by case. *)
Lemma after_classification_outcome c categories r s j :
  jobs s !! c_job c = Some j →
  after_classification c categories r s = classified_outcome c categories r j s.
Proof.
  intros Hj. destruct s as [h js q t]. cbn in Hj.
  pose proof (lookup_lt_Some _ _ _ Hj) as Hlt.
  unfold after_classification, classified_outcome.
  unfold JobList.updateJobData, JobList.setJobFinished.
  erewrite bind_eq by reflexivity.
  erewrite bind_eq by (by apply job_data_known).
  erewrite bind_eq by reflexivity.
  erewrite bind_eq by reflexivity.
  erewrite bind_eq by reflexivity.
  erewrite bind_eq by reflexivity.
  cbn [heap jobs queue trace status id data snapshot_of].
  rewrite deref_alloc_empty, !alter_last.
  erewrite bind_eq by (by apply update_known).
  cbn [heap jobs queue trace status id data snapshot_of].
  destruct (truthy (category r)) eqn:Htr.
  2: { erewrite bind_eq
         by (apply update_known; cbn; by apply list_lookup_insert_eq).
       closure_store. }
  destruct (path (c_body c) ["content"; "id"]) as [contentId|e] eqn:Hid.
  2: { rewrite bind_lift_Throw. closure_store. }
  rewrite bind_lift_Ok.
  destruct (path (c_body c) ["content"; "transactions"])
    as [transactions|e] eqn:Htx.
  2: { rewrite bind_lift_Throw. closure_store. }
  rewrite bind_lift_Ok.
  unfold mbind, M_bind, log, mret, M_ret.
  closure_store.
Qed.

Lemma after_commit_known c s j :
  jobs s !! c_job c = Some j →
  after_commit c s =
  (Ok None,
   State (heap s) (<[c_job c := Job (id j) Finished (data j)]> (jobs s))
         (queue s)
         (trace s ++ [Emit "job updated"
                        (Snapshot (id j) Finished (deref s (data j)))])).
Proof.
  intros Hj. unfold after_commit, JobList.setJobFinished.
  by erewrite bind_eq by (by apply update_known).
Qed.

Lemma bind_run {A B} (m : M A) (f : A → M B) s :
  (m ≫= f) s =
  match m s with
  | (Ok a, s') => f a s'
  | (Throw e, s') => (Throw e, s')
  end.
Proof. reflexivity. Qed.

Lemma after_taxonomy_store c categories s :
  after_taxonomy c categories s =
  (Ok (Some (AwaitClassification categories)),
   State (heap s) (jobs s) (queue s)
         (trace s ++ [Classify (keys categories) (c_destinationName c)
                               (c_description c)])).
Proof. reflexivity. Qed.

(** The rest of the closure after its first piece, when the services
    answer. *)
Lemma finish_answers svc c s j categories r :
  jobs s !! c_job c = Some j →
  truthy (c_body c ?. "content" ?. "id") = true →
  answers svc c categories r →
  finish svc c AwaitTaxonomy s =
  (Ok tt,
   State (heap s ++ [merged (deref s (data j)) r])
         (<[c_job c := Job (id j) Finished (length (heap s))]> (jobs s))
         (queue s)
         (trace s
          ++ [ Classify (keys categories) (c_destinationName c)
                        (c_description c);
               Emit "job updated"
                 (Snapshot (id j) (status j) (merged (deref s (data j)) r)) ]
          ++ (if truthy (category r)
              then [commit (c_body c) categories r] else [])
          ++ [ Emit "job updated"
                 (Snapshot (id j) Finished (merged (deref s (data j)) r)) ])).
Proof.
  intros Hj Hid (Hcats & Hr & Hset).
  pose proof (lookup_lt_Some _ _ _ Hj) as Hlt.
  unfold finish. cbn [settle].
  erewrite bind_eq
    by (rewrite Hcats, bind_lift_Ok; apply after_taxonomy_store).
  cbn [settle]. rewrite bind_run, Hr, bind_lift_Ok.
  rewrite (after_classification_outcome _ _ _ _ j) by exact Hj.
  unfold classified_outcome.
  cbn [heap jobs queue trace].
  destruct (truthy (category r)) eqn:Htr.
  - rewrite !path_content by done. cbn [settle].
    rewrite bind_run, Hset, bind_lift_Ok by done.
    erewrite after_commit_known by (cbn; by apply list_lookup_insert_eq).
    unfold commit. closure_store.
  - closure_store.
Qed.

(** The closure of an accepted request is handed to the queue with its
    job as [createJob] made it. *)
Lemma accepted_store_job body tx s :
  jobs (accepted_store body tx s) !! length (jobs s) =
  Some (Job (length (jobs s)) Created (length (heap s)))
  ∧ deref (accepted_store body tx s) (length (heap s)) =
    {[ "destinationName" := read tx "destination_name";
       "description" := read tx "description" ]}
  ∧ last (waiting (queue (accepted_store body tx s))) =
    Some (Closure (length (jobs s)) (read tx "destination_name")
                  (read tx "description") body).
Proof.
  unfold accepted_store, deref; cbn.
  by rewrite !lookup_last, last_snoc.
Qed.

Lemma begun_store_job body tx s :
  jobs (begun_store body tx s) !! length (jobs s) =
  Some (Job (length (jobs s)) InProgress (length (heap s)))
  ∧ deref (begun_store body tx s) (length (heap s)) =
    {[ "destinationName" := read tx "destination_name";
       "description" := read tx "description" ]}.
Proof. unfold begun_store, deref; cbn. by rewrite !lookup_last. Qed.

Lemma finished_store_job c j categories r s :
  jobs s !! c_job c = Some j →
  jobs (finished_store c j categories r s) !! c_job c =
  Some (Job (id j) Finished (length (heap s)))
  ∧ deref (finished_store c j categories r s) (length (heap s)) =
    merged (deref s (data j)) r.
Proof.
  intros Hj. unfold finished_store, deref; cbn. split.
  - apply list_lookup_insert_eq. by eapply lookup_lt_Some.
  - by rewrite lookup_last.
Qed.

(** A run of the closure from its first statement to its last is its
    first piece followed by the rest. *)
Lemma run_closure_pieces svc c s j categories r :
  jobs s !! c_job c = Some j →
  status j = Created →
  truthy (c_body c ?. "content" ?. "id") = true →
  answers svc c categories r →
  ∃ s1, begin c s = (Ok AwaitTaxonomy, s1)
        ∧ trace s1 =
          trace s ++ [Emit "job updated"
                        (Snapshot (id j) InProgress (deref s (data j)));
                      GetCategories]
        ∧ finish svc c AwaitTaxonomy s1 =
          (Ok tt, finished_store c j categories r s).
Proof.
  intros Hj Hst Hid Hans.
  pose proof (lookup_lt_Some _ _ _ Hj) as Hlt.
  eexists. split; [by apply begin_known|].
  split; [unfold snapshot_of, started; cbn; by rewrite Hst|].
  erewrite finish_answers; [| cbn; by apply list_lookup_insert_eq | done..].
  unfold finished_store, steps, started, snapshot_of, deref.
  cbn [heap jobs queue trace id status data].
  rewrite Hst, list_insert_insert_eq, <- !app_assoc. reflexivity.
Qed.

(** C4: the closure of an accepted request does this and nothing else,
    in this order, while the services answer and no other request
    arrives: it marks the job [InProgress]; fetches the taxonomy;
    requests the classification with the names of the taxonomy,
    [destinationName] and [description]; replaces the data of the job
    with its former data plus [category], [prompt] and [response];
    commits the category (its identifier in the taxonomy, with the
    [content.id] and the [content.transactions] of the request) exactly
    when the category is truthy; marks the job [Finished].  With an
    empty category the job is [Finished] and nothing is committed.
    When the queue has a free slot, [push] starts the closure: the job
    is marked and the taxonomy is requested before the handler returns,
    and the rest follows once the taxonomy has arrived.  When every
    slot is taken the closure waits, and does the same from the store
    in which the queue starts it. *)
Theorem accepted_job_is_orchestrated svc body s tx categories r :
  first_violated body = None →
  first_transaction body = Ok tx →
  let destinationName := read tx "destination_name" in
  let description := read tx "description" in
  let c := Closure (length (jobs s)) destinationName description body in
  let d := {[ "destinationName" := destinationName;
              "description" := description ]} in
  let i := length (jobs s) in
  let first := [ Emit "job updated" (Snapshot i InProgress d);
                 GetCategories ] in
  let rest :=
    [ Classify (keys categories) destinationName description;
      Emit "job updated" (Snapshot i InProgress (merged d r)) ]
    ++ (if truthy (category r)
        then [ SetCategory (body ?. "content" ?. "id")
                           (body ?. "content" ?. "transactions")
                           (map_get categories (category r)) ]
        else [])
    ++ [ Emit "job updated" (Snapshot i Finished (merged d r)) ] in
  answers svc c categories r →
  (free (queue s) = true → waiting (queue s) = [] →
   ∃ s1 s2,
     handleWebhook body s = (Ok tt, s1)
     ∧ trace s1 =
       trace s ++ Emit "job created" (Snapshot i Created d) :: first
     ∧ suspended (queue s1) = suspended (queue s) ++ [Flight c AwaitTaxonomy]
     ∧ finish svc c AwaitTaxonomy s1 = (Ok tt, s2)
     ∧ trace s2 = trace s1 ++ rest
     ∧ (∃ l, jobs s2 !! i = Some (Job i Finished l)
             ∧ deref s2 l = merged d r))
  ∧ (free (queue s) = false →
     ∃ s1,
       handleWebhook body s = (Ok tt, s1)
       ∧ trace s1 = trace s ++ [Emit "job created" (Snapshot i Created d)]
       ∧ last (waiting (queue s1)) = Some c
       ∧ jobs s1 !! i = Some (Job i Created (length (heap s)))
       ∧ deref s1 (length (heap s)) = d)
  ∧ (∀ s' l, jobs s' !! i = Some (Job i Created l) → deref s' l = d →
     ∃ s1 s2,
       begin c s' = (Ok AwaitTaxonomy, s1)
       ∧ trace s1 = trace s' ++ first
       ∧ finish svc c AwaitTaxonomy s1 = (Ok tt, s2)
       ∧ run_closure svc c s' = (Ok tt, s2)
       ∧ trace s2 = trace s1 ++ rest
       ∧ (∃ l', jobs s2 !! i = Some (Job i Finished l')
                ∧ deref s2 l' = merged d r)).
Proof.
  intros Hv Hf dn desc c d i first rest Hans.
  apply no_violation_passes in Hv as [_ Hp].
  destruct (passes_accepts body s Hp) as (tx' & Hf' & Hn & Hh).
  rewrite Hf in Hf'. injection Hf' as <-.
  destruct (check_first_transaction body (passes_check body Hp))
    as (_ & _ & _ & _ & _ & Hid).
  split_and!.
  - intros Hb Hw. rewrite accepted_started_free in Hh by done.
    destruct (begun_store_job body tx s) as (Hj & Hd).
    pose proof (finish_answers svc c (begun_store body tx s) _ categories r
                  Hj Hid Hans) as Hfin.
    eexists _, _. split; [exact Hh|]. split; [reflexivity|].
    split; [reflexivity|]. split; [exact Hfin|].
    cbn [id status data] in *. rewrite Hd. split.
    + unfold commit. reflexivity.
    + eexists. split.
      * cbn [jobs]. apply list_lookup_insert_eq. by eapply lookup_lt_Some.
      * unfold deref. cbn [heap]. by rewrite lookup_last.
  - intros Hb. rewrite accepted_started_busy in Hh by done.
    destruct (accepted_store_job body tx s) as (Hj & Hd & Hq).
    eexists. split; [exact Hh|]. by split_and!.
  - intros s' l Hj Hd.
    destruct (run_closure_pieces svc c s' _ categories r Hj eq_refl Hid Hans)
      as (s1 & Hb & Ht & Hfin).
    exists s1, (finished_store c (Job i Created l) categories r s').
    cbn [id status data] in *. rewrite Hd in Ht.
    split; [exact Hb|]. split; [exact Ht|]. split; [exact Hfin|].
    split; [by apply run_closure_finishes|].
    destruct (finished_store_job c _ categories r s' Hj) as (Hj2 & Hd2).
    cbn [id status data] in *. rewrite Hd in Hd2. split.
    + rewrite Ht. unfold finished_store, steps, commit.
      cbn [trace id status data c_body c_destinationName c_description c].
      rewrite Hd, <- !app_assoc. reflexivity.
    + eexists. split; [exact Hj2 | exact Hd2].
Qed.

Lemma empty_category_answers :
  answers (Examples.answering (VStr ""))
          (Closure 0 (VStr "Cafe") (VStr "coffee") Examples.scenario_A)
          Examples.groceries_taxonomy
          (Classification (VStr "") (VStr "prompt") (VStr "raw")).
Proof. repeat split. Qed.

Lemma groceries_answers :
  answers (Examples.answering (VStr "Groceries"))
          (Closure 0 (VStr "Cafe") (VStr "coffee") Examples.scenario_A)
          Examples.groceries_taxonomy
          (Classification (VStr "Groceries") (VStr "prompt") (VStr "raw")).
Proof. repeat split. Qed.

Lemma accepted_job_is_orchestrated_witness :
  ∃ s1 s2,
    handleWebhook Examples.scenario_A initial = (Ok tt, s1)
    ∧ trace s1 =
      [ Emit "job created"
          (Snapshot 0 Created
             {[ "destinationName" := VStr "Cafe";
                "description" := VStr "coffee" ]});
        Emit "job updated"
          (Snapshot 0 InProgress
             {[ "destinationName" := VStr "Cafe";
                "description" := VStr "coffee" ]});
        GetCategories ]
    ∧ suspended (queue s1) = [Flight Cases.closure_A AwaitTaxonomy]
    ∧ finish (Examples.answering (VStr "Groceries")) Cases.closure_A
             AwaitTaxonomy s1 = (Ok tt, s2)
    ∧ trace s2 =
      trace s1
      ++ [ Classify ["Groceries"; "Eating out"] (VStr "Cafe") (VStr "coffee");
           Emit "job updated"
             (Snapshot 0 InProgress
                (merged {[ "destinationName" := VStr "Cafe";
                           "description" := VStr "coffee" ]}
                   (Classification (VStr "Groceries") (VStr "prompt")
                                   (VStr "raw"))));
           SetCategory (VStr "1") (VArr [Examples.coffee]) (VStr "12");
           Emit "job updated"
             (Snapshot 0 Finished
                (merged {[ "destinationName" := VStr "Cafe";
                           "description" := VStr "coffee" ]}
                   (Classification (VStr "Groceries") (VStr "prompt")
                                   (VStr "raw")))) ]
    ∧ (∃ l, jobs s2 !! 0 = Some (Job 0 Finished l)
            ∧ deref s2 l =
              merged {[ "destinationName" := VStr "Cafe";
                        "description" := VStr "coffee" ]}
                (Classification (VStr "Groceries") (VStr "prompt")
                                (VStr "raw"))).
Proof.
  refine (proj1 (accepted_job_is_orchestrated
                   (Examples.answering (VStr "Groceries"))
                   Examples.scenario_A initial Examples.coffee
                   Examples.groceries_taxonomy
                   (Classification (VStr "Groceries") (VStr "prompt")
                                   (VStr "raw"))
                   _ _ _) _ _).
  - reflexivity.
  - reflexivity.
  - exact groceries_answers.
  - reflexivity.
  - reflexivity.
Defined.

(* ===================================================================== *)
(** * The data of a job                                                   *)
(* ===================================================================== *)

(** C7 as stated fails: scenario A, received in the initial store and
    classified with an empty category (no match), ends [Finished] with
    nothing committed and with the key [category] present in the data
    of the job, holding the empty string. *)
Lemma empty_category_is_recorded :
  ∃ s1 c s2 j,
    handleWebhook Examples.scenario_A initial = (Ok tt, s1)
    ∧ suspended (queue s1) = [Flight c AwaitTaxonomy]
    ∧ Spec.no_match (Classification (VStr "") (VStr "prompt") (VStr "raw"))
    ∧ finish (Examples.answering (VStr "")) c AwaitTaxonomy s1 = (Ok tt, s2)
    ∧ jobs s2 !! c_job c = Some j
    ∧ status j = Finished
    ∧ (∀ a, a ∈ trace s2 → ∀ i t k, a ≠ SetCategory i t k)
    ∧ deref s2 (data j) !! "category" = Some (VStr "")
    ∧ ¬ Spec.absent "category" (deref s2 (data j)).
Proof.
  set (r := Classification (VStr "") (VStr "prompt") (VStr "raw")).
  set (s1 := begun_store Examples.scenario_A Examples.coffee initial).
  assert (finish (Examples.answering (VStr "")) Cases.closure_A
                 AwaitTaxonomy s1
          = (Ok tt,
             State (heap s1 ++ [merged (deref s1 0) r])
                   (<[0 := Job 0 Finished 1]> (jobs s1)) (queue s1)
                   (trace s1
                    ++ [ Classify ["Groceries"; "Eating out"]
                                  (VStr "Cafe") (VStr "coffee");
                         Emit "job updated"
                           (Snapshot 0 InProgress (merged (deref s1 0) r));
                         Emit "job updated"
                           (Snapshot 0 Finished (merged (deref s1 0) r)) ])))
    as Hfin.
  { rewrite (finish_answers _ _ _ (Job 0 InProgress 0)
               Examples.groceries_taxonomy r);
      [reflexivity | reflexivity | reflexivity | exact empty_category_answers]. }
  eexists s1, Cases.closure_A, _, (Job 0 Finished 1).
  split; [by vm_compute|]. split; [reflexivity|]. split; [reflexivity|].
  split; [exact Hfin|]. split; [reflexivity|]. split; [reflexivity|].
  split_and!.
  - intros a Ha i t k ->. cbn in Ha.
    repeat (apply elem_of_cons in Ha as [Ha|Ha]; [discriminate Ha|]).
    by apply elem_of_nil in Ha.
  - by vm_compute.
  - unfold Spec.absent. by vm_compute.
Qed.

(** C7, amended: the data of a job has no [category], [prompt] or
    [response] key when the job is created and when the handler returns;
    once the closure has run, it has all three, holding what the
    classification returned, whether or not a category was matched,
    next to the [destinationName] and [description] it had.  The
    closure may be started by the queue later ([run_closure]) or, when
    [push] started it, go on from its first [await] ([finish]), in any
    store in which the job still has the data it was created with. *)
Theorem classification_is_recorded svc body s tx categories r :
  first_violated body = None →
  first_transaction body = Ok tx →
  let c := Closure (length (jobs s)) (read tx "destination_name")
                   (read tx "description") body in
  answers svc c categories r →
  ∃ s1 j1,
    handleWebhook body s = (Ok tt, s1)
    ∧ jobs s1 !! c_job c = Some j1
    ∧ Spec.absent "category" (deref s1 (data j1))
    ∧ Spec.absent "prompt" (deref s1 (data j1))
    ∧ Spec.absent "response" (deref s1 (data j1))
    ∧ ∀ run s' j',
        run = run_closure svc c ∨ run = finish svc c AwaitTaxonomy →
        jobs s' !! c_job c = Some j' →
        deref s' (data j') = deref s1 (data j1) →
        ∃ s2 j2,
          run s' = (Ok tt, s2)
          ∧ jobs s2 !! c_job c = Some j2
          ∧ deref s2 (data j2) !! "category" = Some (category r)
          ∧ deref s2 (data j2) !! "prompt" = Some (prompt r)
          ∧ deref s2 (data j2) !! "response" = Some (response r)
          ∧ deref s2 (data j2) !! "destinationName"
            = Some (read tx "destination_name")
          ∧ deref s2 (data j2) !! "description" = Some (read tx "description").
Proof.
  intros Hv Hf c Hans.
  apply no_violation_passes in Hv as [_ Hp].
  destruct (passes_accepts body s Hp) as (tx' & Hf' & Hn & Hh).
  rewrite Hf in Hf'. injection Hf' as <-.
  destruct (check_first_transaction body (passes_check body Hp))
    as (_ & _ & _ & _ & _ & Hid).
  destruct (accepted_store_job body tx s) as (Hj & Hd & _).
  destruct (started_store_frame (accepted_store body tx s))
    as (Hheap & _ & Hjobs).
  destruct (Hjobs _ _ Hj) as (j1 & Hj1 & _ & Hdata & _). cbn [data] in Hdata.
  assert (deref (started_store (accepted_store body tx s)) (data j1)
          = {[ "destinationName" := read tx "destination_name";
               "description" := read tx "description" ]}) as Hd1.
  { unfold deref in *. by rewrite Hdata, Hheap. }
  exists (started_store (accepted_store body tx s)), j1.
  rewrite Hd1. split_and!; try done.
  intros run s' j' Hrun Hj' Hd'.
  pose proof (lookup_lt_Some _ _ _ Hj') as Hlt.
  assert (∃ s2, run s' = (Ok tt, s2)
                ∧ heap s2 = heap s' ++ [merged (deref s' (data j')) r]
                ∧ jobs s2 =
                  <[c_job c := Job (id j') Finished (length (heap s'))]>
                    (jobs s')) as (s2 & Hr & Hheap2 & Hjobs2).
  { destruct Hrun as [-> | ->].
    - rewrite (run_closure_outcome svc c s' j' Hj'). unfold closure_outcome.
      destruct Hans as (Hcats & Hcl & Hset). rewrite Hcats, Hcl.
      rewrite !path_content by done.
      destruct (truthy (category r)); [rewrite Hset by done|];
        by eexists.
    - erewrite finish_answers by done. by eexists. }
  exists s2, (Job (id j') Finished (length (heap s'))).
  split; [exact Hr|]. rewrite Hjobs2.
  split; [by apply list_lookup_insert_eq|].
  unfold deref at 1 2 3 4 5. cbn [data]. rewrite Hheap2, lookup_last.
  cbn [default]. rewrite Hd'. unfold merged. by split_and!.
Qed.

Lemma classification_is_recorded_witness :
  ∃ s1 j1,
    handleWebhook Examples.scenario_A initial = (Ok tt, s1)
    ∧ jobs s1 !! 0 = Some j1
    ∧ Spec.absent "category" (deref s1 (data j1))
    ∧ Spec.absent "prompt" (deref s1 (data j1))
    ∧ Spec.absent "response" (deref s1 (data j1))
    ∧ ∀ run s' j',
        run = run_closure (Examples.answering (VStr "")) Cases.closure_A
        ∨ run = finish (Examples.answering (VStr "")) Cases.closure_A
                       AwaitTaxonomy →
        jobs s' !! 0 = Some j' →
        deref s' (data j') = deref s1 (data j1) →
        ∃ s2 j2,
          run s' = (Ok tt, s2)
          ∧ jobs s2 !! 0 = Some j2
          ∧ deref s2 (data j2) !! "category" = Some (VStr "")
          ∧ deref s2 (data j2) !! "prompt" = Some (VStr "prompt")
          ∧ deref s2 (data j2) !! "response" = Some (VStr "raw")
          ∧ deref s2 (data j2) !! "destinationName" = Some (VStr "Cafe")
          ∧ deref s2 (data j2) !! "description" = Some (VStr "coffee").
Proof.
  apply (classification_is_recorded (Examples.answering (VStr ""))
           Examples.scenario_A initial Examples.coffee
           Examples.groceries_taxonomy
           (Classification (VStr "") (VStr "prompt") (VStr "raw"))).
  - reflexivity.
  - reflexivity.
  - exact empty_category_answers.
Defined.

Lemma finished_store_heap c j categories r s l :
  l < length (heap s) →
  heap (finished_store c j categories r s) !! l = heap s !! l.
Proof. intros Hl. unfold finished_store; cbn. by apply lookup_app_l. Qed.

(** C8: [updateJobData] changes no data object, it only makes the job
    refer to the object it is given; and the closure gives it a fresh
    object, a copy of the data of the job to which the three results
    were assigned.  So every object that existed before the closure ran
    is the same after it: a reader that holds the former data of the job
    still finds the same properties in it, and the data of the job is
    now another object. *)
Theorem update_leaves_snapshot svc c s j categories r :
  jobs s !! c_job c = Some j →
  status j = Created →
  data j < length (heap s) →
  truthy (c_body c ?. "content" ?. "id") = true →
  answers svc c categories r →
  (∀ i newData s0,
     heap (JobList.updateJobData i newData s0).2 = heap s0
     ∧ ∀ j0, jobs s0 !! i = Some j0 →
             jobs (JobList.updateJobData i newData s0).2 !! i =
             Some (Job (id j0) (status j0) newData))
  ∧ ∃ s' j',
      run_closure svc c s = (Ok tt, s')
      ∧ (∀ l, l < length (heap s) → heap s' !! l = heap s !! l)
      ∧ deref s' (data j) = deref s (data j)
      ∧ jobs s' !! c_job c = Some j'
      ∧ data j' ≠ data j
      ∧ deref s' (data j') = merged (deref s (data j)) r.
Proof.
  intros Hj Hst Hlt Hid Hans. split.
  - intros i newData s0. unfold JobList.updateJobData, JobList.update.
    destruct (jobs s0 !! i) as [j0|] eqn:E; cbn; split; try done.
    intros j1 [= <-]. apply list_lookup_insert_eq. by eapply lookup_lt_Some.
  - pose proof (run_closure_finishes svc c s j categories r Hj Hst Hid Hans)
      as Hrun.
    destruct (finished_store_job c j categories r s Hj) as (Hj2 & Hd2).
    exists (finished_store c j categories r s),
      (Job (id j) Finished (length (heap s))).
    split; [exact Hrun|]. split; [intros l; apply finished_store_heap|].
    split; [|split; [exact Hj2|]]; [|split; [cbn; lia | exact Hd2]].
    unfold deref. by rewrite finished_store_heap.
Qed.

Lemma update_leaves_snapshot_witness :
  ∃ s' j',
    run_closure (Examples.answering (VStr "Groceries"))
      (Closure 0 (VStr "Cafe") (VStr "coffee") Examples.scenario_A)
      (accepted_store Examples.scenario_A Examples.coffee initial) =
    (Ok tt, s')
    ∧ (∀ l, l < 1 →
         heap s' !! l =
         heap (accepted_store Examples.scenario_A Examples.coffee initial) !! l)
    ∧ deref s' 0 =
      deref (accepted_store Examples.scenario_A Examples.coffee initial) 0
    ∧ jobs s' !! 0 = Some j'
    ∧ data j' ≠ 0
    ∧ deref s' (data j') =
      merged
        (deref (accepted_store Examples.scenario_A Examples.coffee initial) 0)
        (Classification (VStr "Groceries") (VStr "prompt") (VStr "raw")).
Proof.
  apply (update_leaves_snapshot (Examples.answering (VStr "Groceries"))
           (Closure 0 (VStr "Cafe") (VStr "coffee") Examples.scenario_A)
           (accepted_store Examples.scenario_A Examples.coffee initial)
           (Job 0 Created 0)
           Examples.groceries_taxonomy
           (Classification (VStr "Groceries") (VStr "prompt") (VStr "raw"))).
  - reflexivity.
  - reflexivity.
  - cbn. lia.
  - reflexivity.
  - exact groceries_answers.
Defined.

(* ===================================================================== *)
(** * The queue                                                           *)
(* ===================================================================== *)

(** The options that [run] gives the queue: a timeout of 30 seconds in
    milliseconds, one item at a time, started by the first [push]. *)
Lemma queue_options_of_run :
  timeout queue_config = 30000%N
  ∧ concurrency queue_config = 1
  ∧ autostart queue_config = true.
Proof. by vm_compute. Qed.

(* ===================================================================== *)
(** * What the answer depends on                                          *)
(* ===================================================================== *)

(** The answer of the endpoint is read off the chain. *)
Lemma answer_by_check body s :
  (onWebhook body s).1 =
  match check rules body with
  | Ok _ => HttpResponse 200 "Queued"
  | Throw e => HttpResponse 400 (message e)
  end.
Proof.
  unfold onWebhook.
  destruct (handleWebhook_outcome body s) as [[Hh Hc] | (e & Hh & Hc)];
    rewrite Hh, Hc; [|done].
  destruct (check_first_transaction body Hc) as (tx & Hf & Hn & _).
  by rewrite (accept_store body tx).
Qed.

Lemma check_agree rs body body' :
  (∀ r, guard r body = guard r body') → check rs body = check rs body'.
Proof.
  intros H. induction rs as [|r rs IH]; [done|].
  cbn [check]. by rewrite H, IH.
Qed.

(** The guards look at a body through eight reads. *)
Lemma guard_agree body body' :
  body ?. "trigger" = body' ?. "trigger" →
  body ?. "response" = body' ?. "response" →
  body ?. "content" ?. "id" = body' ?. "content" ?. "id" →
  is_zero (body ?. "content" ?. "transactions" ?. "length") =
  is_zero (body' ?. "content" ?. "transactions" ?. "length") →
  (∀ k, transaction_field body k = transaction_field body' k) →
  ∀ r, guard r body = guard r body'.
Proof.
  intros H1 H2 H3 H4 H5 r.
  destruct r; cbn [guard]; unfold on_field; by rewrite ?H1, ?H2, ?H3, ?H4, ?H5.
Qed.

(** Lines 136 to 142, case by case. *)
Lemma create_cases body s :
  create body s =
  match transaction_field body "destination_name" with
  | Throw e => (Throw e, s)
  | Ok dn =>
      match transaction_field body "description" with
      | Throw e => (Throw e, s)
      | Ok d =>
          (Ok (Closure (length (jobs s)) dn d body),
           State (heap s ++ [{[ "destinationName" := dn; "description" := d ]}])
                 (jobs s ++ [Job (length (jobs s)) Created (length (heap s))])
                 (queue s)
                 (trace s
                  ++ [Emit "job created"
                        (Snapshot (length (jobs s)) Created
                           {[ "destinationName" := dn;
                              "description" := d ]})]))
      end
  end.
Proof.
  unfold create.
  destruct (transaction_field body "destination_name") as [dn|e]; [|done].
  destruct (transaction_field body "description") as [d|e]; [|done].
  rewrite !bind_lift_Ok.
  unfold mbind, M_bind, alloc, JobList.createJob, mret, M_ret, snapshot_of,
    deref; cbn.
  by rewrite lookup_last.
Qed.

(** What [push] does to the data objects, the jobs and the trace depends
    on the closure through its job only. *)
Lemma queue_push_agree c c' s :
  c_job c = c_job c' →
  heap (queue_push c s).2 = heap (queue_push c' s).2
  ∧ jobs (queue_push c s).2 = jobs (queue_push c' s).2
  ∧ trace (queue_push c s).2 = trace (queue_push c' s).2.
Proof.
  intros Hc. rewrite !queue_push_store. unfold started_store, set_queue, free.
  cbn [snd queue pending waiting suspended heap jobs trace].
  destruct (pending (queue s) <? concurrency queue_config)%nat; [|done].
  destruct (waiting (queue s)) as [|c0 rest]; cbn [app].
  - rewrite Hc. by destruct (jobs s !! c_job c').
  - by destruct (jobs s !! c_job c0).
Qed.

Lemma accept_agree body body' s :
  transaction_field body "destination_name"
  = transaction_field body' "destination_name" →
  transaction_field body "description"
  = transaction_field body' "description" →
  (accept body s).1 = (accept body' s).1
  ∧ heap (accept body s).2 = heap (accept body' s).2
  ∧ jobs (accept body s).2 = jobs (accept body' s).2
  ∧ trace (accept body s).2 = trace (accept body' s).2.
Proof.
  intros Hdn Hd. unfold accept. rewrite !bind_run, !create_cases, Hdn, Hd.
  destruct (transaction_field body' "destination_name") as [dn|e]; [|done].
  destruct (transaction_field body' "description") as [d|e]; [|done].
  split; [by rewrite !queue_push_store|].
  by apply queue_push_agree.
Qed.

Lemma answer_agree (r r' : result unit * state) :
  r.1 = r'.1 →
  heap r.2 = heap r'.2 → jobs r.2 = jobs r'.2 → trace r.2 = trace r'.2 →
  let answer (x : result unit * state) :=
    match x with
    | (Ok _, s') => (HttpResponse 200 "Queued", s')
    | (Throw e, s') => (HttpResponse 400 (message e), s')
    end in
  (answer r).1 = (answer r').1
  ∧ heap (answer r).2 = heap (answer r').2
  ∧ jobs (answer r).2 = jobs (answer r').2
  ∧ trace (answer r).2 = trace (answer r').2.
Proof.
  destruct r as [[[]|e] s1], r' as [[[]|e'] s1']; cbn; intros H1 H2 H3 H4;
    try discriminate H1; [done|]. by injection H1 as ->.
Qed.

(** Two bodies that the guards cannot tell apart, and whose first
    transactions have the same fields, get the same answer and leave the
    same data objects, jobs and events. *)
Lemma handleWebhook_agree body body' s :
  (∀ r, guard r body = guard r body') →
  (∀ k, transaction_field body k = transaction_field body' k) →
  (onWebhook body s).1 = (onWebhook body' s).1
  ∧ heap (onWebhook body s).2 = heap (onWebhook body' s).2
  ∧ jobs (onWebhook body s).2 = jobs (onWebhook body' s).2
  ∧ trace (onWebhook body s).2 = trace (onWebhook body' s).2.
Proof.
  intros Hg Hf. unfold onWebhook. rewrite !handleWebhook_check.
  rewrite (check_agree rules body body' Hg).
  destruct (check rules body') as [[]|e]; [|done].
  by apply answer_agree; apply accept_agree.
Qed.

Lemma read_insert_ne props k v k' :
  k ≠ k' → read (VObj (<[k := v]> props)) k' = read (VObj props) k'.
Proof. intros H. cbn [read]. by rewrite lookup_insert_ne. Qed.

Lemma read_insert_eq props k v : read (VObj (<[k := v]> props)) k = v.
Proof. cbn [read]. by rewrite lookup_insert_eq. Qed.

Lemma path_object props k ks :
  path (VObj props) (k :: ks) = path (read (VObj props) k) ks.
Proof. reflexivity. Qed.

Lemma get_opt_object props k : VObj props ?. k = read (VObj props) k.
Proof. reflexivity. Qed.

Lemma path_array_first x rest ks :
  path (VArr (x :: rest)) ("0" :: ks) = path x ks.
Proof. reflexivity. Qed.

(** What the handler reads in a body given by its parts. *)
Lemma body_of_reads top content transactions :
  let body := body_of top content transactions in
  body ?. "trigger" = read (VObj top) "trigger"
  ∧ body ?. "response" = read (VObj top) "response"
  ∧ body ?. "content" ?. "id" = read (VObj content) "id"
  ∧ body ?. "content" ?. "transactions" = transactions
  ∧ ∀ k, transaction_field body k = path transactions ["0"; k].
Proof.
  unfold body_of, transaction_field. cbn zeta.
  rewrite !get_opt_object, !read_insert_eq, !get_opt_object, !read_insert_eq.
  rewrite !read_insert_ne by done. repeat split.
  intros k. by rewrite !path_object, !read_insert_eq, !path_object,
    !read_insert_eq.
Qed.

Lemma guard_body_of top content transactions transactions' :
  is_zero (transactions ?. "length") = is_zero (transactions' ?. "length") →
  (∀ k, k ∈ transaction_keys →
        path transactions ["0"; k] = path transactions' ["0"; k]) →
  ∀ r, guard r (body_of top content transactions) =
       guard r (body_of top content transactions').
Proof.
  intros Hl Hf r.
  destruct (body_of_reads top content transactions) as (H1 & H2 & H3 & H4 & H5).
  destruct (body_of_reads top content transactions')
    as (H1' & H2' & H3' & H4' & H5').
  cbn zeta in *.
  destruct r; cbn [guard]; unfold on_field;
    rewrite ?H1, ?H2, ?H3, ?H4, ?H5, ?H1', ?H2', ?H3', ?H4', ?H5', ?Hl;
    try done; rewrite Hf; try done;
    unfold transaction_keys; repeat constructor.
Qed.

(** Two bodies that differ in their transactions only, alike in their
    length being zero or not and in the fields of the first one that
    the handler reads, get the same answer and leave the same data
    objects, jobs and events. *)
Lemma body_of_agree top content transactions transactions' s :
  is_zero (transactions ?. "length") = is_zero (transactions' ?. "length") →
  (∀ k, k ∈ transaction_keys →
        path transactions ["0"; k] = path transactions' ["0"; k]) →
  let body := body_of top content transactions in
  let body' := body_of top content transactions' in
  (onWebhook body s).1 = (onWebhook body' s).1
  ∧ heap (onWebhook body s).2 = heap (onWebhook body' s).2
  ∧ jobs (onWebhook body s).2 = jobs (onWebhook body' s).2
  ∧ trace (onWebhook body s).2 = trace (onWebhook body' s).2.
Proof.
  intros Hl Hf body body'. unfold onWebhook. rewrite !handleWebhook_check.
  rewrite (check_agree rules body body')
    by (by apply guard_body_of).
  destruct (check rules body') as [[]|e]; [|done].
  destruct (body_of_reads top content transactions) as (_ & _ & _ & _ & H5).
  destruct (body_of_reads top content transactions') as (_ & _ & _ & _ & H5').
  subst body body'. cbn zeta in H5, H5'.
  apply answer_agree; apply accept_agree;
    rewrite H5, H5', Hf; try done; unfold transaction_keys; repeat constructor.
Qed.

Ltac listed :=
  unfold top_keys, content_keys, transaction_keys; repeat constructor.

Ltac unread H := let E := fresh in intros E; subst; apply H; listed.

Lemma answer_independent_of_store_aux body s s' :
  (onWebhook body s).1 = (onWebhook body s').1.
Proof. by rewrite !answer_by_check. Qed.

(** X1: whatever the registry, the queue and the objects in the store,
    the same body gets the same answer. *)
Theorem answer_independent_of_store body s s' :
  (onWebhook body s).1 = (onWebhook body s').1.
Proof. by rewrite !answer_by_check. Qed.

(** X2: a body that is not an object (no body parsed, [null], a number,
    a boolean, a string, an array) is answered 400 with the message of
    the rule on the trigger, and nothing is thrown past the handler or
    stored. *)
Theorem body_without_properties_rejected body s :
  (∀ props, body ≠ VObj props) →
  onWebhook body s =
  (HttpResponse 400
     "trigger is not STORE_TRANSACTION. Request will not be processed", s).
Proof.
  intros H.
  assert (is_string (body ?. "trigger") "STORE_TRANSACTION" = false) as Ht.
  { destruct body; try reflexivity. by destruct (H props). }
  unfold onWebhook, handleWebhook. by rewrite Ht.
Qed.

Lemma body_without_properties_rejected_witness :
  onWebhook VUndefined initial =
  (HttpResponse 400
     "trigger is not STORE_TRANSACTION. Request will not be processed",
   initial)
  ∧ onWebhook (VArr [Examples.scenario_A]) initial =
    (HttpResponse 400
       "trigger is not STORE_TRANSACTION. Request will not be processed",
     initial).
Proof.
  split.
  - apply (body_without_properties_rejected VUndefined initial). discriminate.
  - apply (body_without_properties_rejected (VArr [Examples.scenario_A])
             initial).
    discriminate.
Defined.

(** X3: a property that the handler does not read changes nothing: an
    extra property of the body (other than [trigger], [response],
    [content]), of [content] (other than [id], [transactions]) or of the
    first transaction (other than [type], [category_id], [description],
    [destination_name]) leaves the answer, the data objects, the jobs
    and the events as they are without it. *)
Theorem unread_properties_ignored k v s :
  (∀ top, k ∉ top_keys →
     let body := VObj top in
     let body' := VObj (<[k := v]> top) in
     (onWebhook body' s).1 = (onWebhook body s).1
     ∧ heap (onWebhook body' s).2 = heap (onWebhook body s).2
     ∧ jobs (onWebhook body' s).2 = jobs (onWebhook body s).2
     ∧ trace (onWebhook body' s).2 = trace (onWebhook body s).2)
  ∧ (∀ top content, k ∉ content_keys →
     let body := VObj (<["content" := VObj content]> top) in
     let body' := VObj (<["content" := VObj (<[k := v]> content)]> top) in
     (onWebhook body' s).1 = (onWebhook body s).1
     ∧ heap (onWebhook body' s).2 = heap (onWebhook body s).2
     ∧ jobs (onWebhook body' s).2 = jobs (onWebhook body s).2
     ∧ trace (onWebhook body' s).2 = trace (onWebhook body s).2)
  ∧ (∀ top content tx rest, k ∉ transaction_keys →
     let body := body_of top content (VArr (VObj tx :: rest)) in
     let body' := body_of top content (VArr (VObj (<[k := v]> tx) :: rest)) in
     (onWebhook body' s).1 = (onWebhook body s).1
     ∧ heap (onWebhook body' s).2 = heap (onWebhook body s).2
     ∧ jobs (onWebhook body' s).2 = jobs (onWebhook body s).2
     ∧ trace (onWebhook body' s).2 = trace (onWebhook body s).2).
Proof.
  split; [|split].
  - intros top Hk body body'.
    assert (read body' "content" = read body "content") as Hc
      by (apply read_insert_ne; unread Hk).
    assert (∀ k0, transaction_field body' k0 = transaction_field body k0)
      as Hf.
    { intros k0. unfold transaction_field. subst body body'.
      by rewrite !path_object, Hc. }
    apply handleWebhook_agree; [apply guard_agree|]; try exact Hf;
      subst body body'; rewrite !get_opt_object, ?Hc; try done;
      (rewrite read_insert_ne; [done | unread Hk]).
  - intros top content Hk body body'.
    assert (∀ k0, k0 ∈ content_keys →
                  read body' "content" ?. k0 = read body "content" ?. k0)
      as Hc.
    { intros k0 Hk0. subst body body'.
      rewrite !read_insert_eq, !get_opt_object.
      apply read_insert_ne. intros E. by subst. }
    assert (∀ k0, transaction_field body' k0 = transaction_field body k0)
      as Hf.
    { intros k0. unfold transaction_field. subst body body'.
      rewrite !path_object, !read_insert_eq, !path_object.
      rewrite read_insert_ne; [done | unread Hk]. }
    apply handleWebhook_agree; [apply guard_agree|]; try exact Hf;
      subst body body'; rewrite !get_opt_object;
      rewrite ?Hc by listed; try done;
      by rewrite !read_insert_ne by done.
  - intros top content tx rest Hk body body'.
    apply body_of_agree; [reflexivity|].
    intros k' Hk'. rewrite !path_array_first, !path_object.
    rewrite read_insert_ne; [done | intros E; by subst].
Qed.

Lemma unread_properties_ignored_witness :
  (onWebhook (VObj (<["version" := VStr "v0"]> Cases.top_A)) initial).1 =
  (onWebhook (VObj Cases.top_A) initial).1
  ∧ (onWebhook
       (VObj (<["content" :=
                  VObj (<["user" := VStr "7"]> Cases.content_A)]> Cases.top_A))
       initial).1 =
    (onWebhook (VObj (<["content" := VObj Cases.content_A]> Cases.top_A))
               initial).1
  ∧ (onWebhook
       (body_of Cases.top_A Cases.content_A
          (VArr [VObj (<["amount" := VStr "3.50"]> Cases.coffee_fields)]))
       initial).1 =
    (onWebhook
       (body_of Cases.top_A Cases.content_A (VArr [VObj Cases.coffee_fields]))
       initial).1.
Proof.
  destruct (unread_properties_ignored "version" (VStr "v0") initial)
    as (Htop & _ & _).
  destruct (unread_properties_ignored "user" (VStr "7") initial)
    as (_ & Hcontent & _).
  destruct (unread_properties_ignored "amount" (VStr "3.50") initial)
    as (_ & _ & Htx).
  split; [|split].
  - refine (proj1 (Htop Cases.top_A _)).
    unfold top_keys. rewrite !not_elem_of_cons. repeat split; try done.
    apply not_elem_of_nil.
  - refine (proj1 (Hcontent Cases.top_A Cases.content_A _)).
    unfold content_keys. rewrite !not_elem_of_cons. repeat split; try done.
    apply not_elem_of_nil.
  - refine (proj1 (Htx Cases.top_A Cases.content_A Cases.coffee_fields [] _)).
    unfold transaction_keys. rewrite !not_elem_of_cons.
    repeat split; try done. apply not_elem_of_nil.
Defined.

(** X4: only the first transaction is examined: whatever transactions
    follow it, the answer, the data object of the job, the jobs and the
    events are those of the request with the first transaction alone. *)
Theorem later_transactions_ignored top content tx rest s :
  let body := body_of top content (VArr (tx :: rest)) in
  let alone := body_of top content (VArr [tx]) in
  (onWebhook body s).1 = (onWebhook alone s).1
  ∧ heap (onWebhook body s).2 = heap (onWebhook alone s).2
  ∧ jobs (onWebhook body s).2 = jobs (onWebhook alone s).2
  ∧ trace (onWebhook body s).2 = trace (onWebhook alone s).2.
Proof. by apply body_of_agree. Qed.

(* ===================================================================== *)
(** * What a rejection tells                                              *)
(* ===================================================================== *)

Lemma rule_message_inj r r' : rule_message r = rule_message r' → r = r'.
Proof. destruct r, r'; intros H; try reflexivity; discriminate H. Qed.

Lemma cannot_read_not_rule w k r : cannot_read w k ≠ rule_message r.
Proof. destruct r; discriminate. Qed.

Lemma first_of_violates rs body r :
  first_of rs body = Some r → violates r body = true.
Proof.
  induction rs as [|r0 rs IH]; [done|]. cbn [first_of].
  destruct (violates r0 body) eqn:E; [|exact IH]. by intros [= <-].
Qed.

(** With a first transaction the chain is the search for the first
    violated rule. *)
Lemma check_present body :
  has_first_transaction body →
  check rules body =
  match first_violated body with
  | Some r => Throw (WebhookException (rule_message r))
  | None => Ok tt
  end.
Proof.
  intros Hp. unfold first_violated.
  induction rules as [|r rs IH]; [done|].
  cbn [check first_of]. rewrite guard_violates by done.
  by destruct (violates r body).
Qed.

(** Without a first transaction, a body that got past [content.id]
    fails in the read of a field of the first transaction: on
    [transactions] when it is missing, else on its first element. *)
Lemma transaction_field_absent body k :
  truthy (body ?. "content" ?. "id") = true →
  nullish (first_tx body) = true →
  transaction_field body k =
  Throw (TypeError
           (if nullish (body ?. "content" ?. "transactions")
            then cannot_read (body ?. "content" ?. "transactions") "0"
            else cannot_read (first_tx body) k)).
Proof.
  intros Hid Hn. unfold transaction_field.
  change ["content"; "transactions"; "0"; k]
    with (["content"; "transactions"] ++ ["0"; k]).
  rewrite path_app, path_content by done. cbn [path].
  unfold first_tx in *.
  destruct (nullish (body ?. "content" ?. "transactions")) eqn:Ht.
  - by rewrite get_nullish.
  - rewrite get_not_nullish, <- get_opt_not_nullish by done.
    by rewrite get_nullish.
Qed.

(** The chain without a first transaction: a violated rule among the
    first four rejects; otherwise the read of [type] throws. *)
Lemma check_absent body :
  nullish (first_tx body) = true →
  (∃ r, r ∈ early_rules ∧ first_violated body = Some r
        ∧ check rules body = Throw (WebhookException (rule_message r)))
  ∨ (Forall (λ r, guard r body = Ok false) early_rules
     ∧ check rules body =
       Throw (TypeError
                (if nullish (body ?. "content" ?. "transactions")
                 then cannot_read (body ?. "content" ?. "transactions") "0"
                 else cannot_read (first_tx body) "type"))).
Proof.
  intros Hn. unfold first_violated, rules, early_rules.
  cbn [check first_of].
  rewrite !(guard_violates body RTrigger), !(guard_violates body RResponse),
    !(guard_violates body RContentId), !(guard_violates body RTransactions)
    by discriminate.
  destruct (violates RTrigger body) eqn:E1;
    [left; exists RTrigger; repeat split; repeat constructor|].
  destruct (violates RResponse body) eqn:E2;
    [left; exists RResponse; repeat split; repeat constructor|].
  destruct (violates RContentId body) eqn:E3;
    [left; exists RContentId; repeat split; repeat constructor|].
  destruct (violates RTransactions body) eqn:E4;
    [left; exists RTransactions; repeat split; repeat constructor|].
  right. split;
    [repeat constructor; rewrite guard_violates by discriminate; congruence|].
  cbn [guard]. unfold on_field.
  rewrite transaction_field_absent; [done | | done].
  cbn [violates] in E3. by apply negb_false_iff in E3.
Qed.

(** Every outcome of [#handleWebhook]: the job is created and its
    closure pushed, or the first violated rule throws its exception, or, with the first four rules
    passed and no first transaction, a read throws a [TypeError]. *)
Lemma handleWebhook_cases body s :
  (first_violated body = None
   ∧ handleWebhook body s =
     (Ok tt, started_store (accepted_store body (first_tx body) s)))
  ∨ (∃ r, first_violated body = Some r ∧ fires r body
          ∧ handleWebhook body s =
            (Throw (WebhookException (rule_message r)), s))
  ∨ (Forall (λ r, guard r body = Ok false) early_rules
     ∧ nullish (first_tx body) = true
     ∧ handleWebhook body s =
       (Throw (TypeError
                 (if nullish (body ?. "content" ?. "transactions")
                  then cannot_read (body ?. "content" ?. "transactions") "0"
                  else cannot_read (first_tx body) "type")), s)).
Proof.
  rewrite handleWebhook_check.
  destruct (nullish (first_tx body)) eqn:Hn.
  - destruct (check_absent body Hn) as [(r & Hr & Hf & Hc) | [He Hc]].
    + right; left. exists r. rewrite Hc. repeat split; try done.
      unfold fires. rewrite guard_violates.
      * by rewrite (first_of_violates _ _ _ Hf).
      * unfold early_rules in Hr. intros Hrd. exfalso.
        rewrite !elem_of_cons, elem_of_nil in Hr.
        destruct Hr as [->|[->|[->|[->|[]]]]]; discriminate Hrd.
    + right; right. by rewrite Hc.
  - rewrite (check_present body Hn).
    destruct (first_violated body) as [r|] eqn:Hf.
    + right; left. exists r. repeat split; try done.
      unfold fires. rewrite guard_violates by done.
      by rewrite (first_of_violates _ _ _ Hf).
    + left. split; [done|].
      apply accept_store; [by apply first_transaction_present | done].
Qed.

Lemma cannot_read_nullish w k :
  nullish w = true →
  cannot_read w k = cannot_read VUndefined k
  ∨ cannot_read w k = cannot_read VNull k.
Proof. destruct w; try discriminate; auto. Qed.

(** X5: [#handleWebhook] throws a [TypeError] exactly when the first four
    rules let the payload through and it has no first transaction
    ([content.transactions[0]] is [undefined] or [null]); the error is
    then that of reading [0] or [type] on [undefined] or [null], and the
    store is left as it was. *)
Theorem runtime_error_without_first_transaction body s :
  ((∃ m s', handleWebhook body s = (Throw (TypeError m), s'))
   ↔ Forall (λ r, guard r body = Ok false) early_rules
     ∧ nullish (first_tx body) = true)
  ∧ (∀ m s', handleWebhook body s = (Throw (TypeError m), s') →
       s' = s
       ∧ m ∈ [ "Cannot read properties of undefined (reading '0')";
               "Cannot read properties of null (reading '0')";
               "Cannot read properties of undefined (reading 'type')";
               "Cannot read properties of null (reading 'type')" ]).
Proof.
  destruct (handleWebhook_cases body s)
    as [[Hf Hh] | [(r & Hf & Hr & Hh) | (He & Hn & Hh)]];
    rewrite Hh.
  - split; [split|]; [intros (m & s' & [=]) | | intros m s' [=]].
    intros [_ Hn]. apply no_violation_passes in Hf as [Hp _].
    unfold has_first_transaction in Hp. congruence.
  - split; [split|]; [intros (m & s' & [=]) | | intros m s' [=]].
    intros [He Hn]. exfalso. unfold fires in Hr.
    assert (r ∉ early_rules) as Hne.
    { intros Hin. rewrite Forall_forall in He. specialize (He r Hin).
      congruence. }
    assert (reads_first_transaction r = true) as Hrd.
    { destruct r; try reflexivity; exfalso; apply Hne;
        unfold early_rules; repeat constructor. }
    destruct r; try discriminate Hrd; cbn [guard] in Hr;
      apply on_field_Ok in Hr as (tx & Hft & Hnt & _);
      unfold first_tx in Hn;
      assert (has_first_transaction body → False) as Habs
        by (unfold has_first_transaction, first_tx; congruence).
    all: apply Habs; unfold has_first_transaction, first_tx.
    all: unfold first_transaction in Hft;
      change ["content"; "transactions"; "0"]
        with (["content"; "transactions"] ++ ["0"]) in Hft;
      rewrite path_app in Hft.
    all: rewrite Forall_forall in He;
      pose proof (He RContentId ltac:(unfold early_rules; repeat constructor))
        as Hid; apply guard_content_id in Hid;
      rewrite path_content in Hft by done; cbn [path] in Hft.
    all: destruct (get (body ?. "content" ?. "transactions") "0")
        as [w|] eqn:Hg; [|discriminate Hft];
      injection Hft as ->; apply get_Ok in Hg as [Hnn ->];
      by rewrite get_opt_not_nullish.
  - split; [split|].
    + done.
    + intros _. by do 2 eexists.
    + intros m s' [= <- <-]. split; [done|].
      destruct (nullish (body ?. "content" ?. "transactions")) eqn:Ht.
      * destruct (cannot_read_nullish _ "0" Ht) as [-> | ->];
          repeat constructor.
      * destruct (cannot_read_nullish _ "type" Hn) as [-> | ->];
          repeat constructor.
Qed.

Lemma runtime_error_without_first_transaction_witness :
  ∃ m s', handleWebhook Examples.without_transactions initial =
          (Throw (TypeError m), s').
Proof.
  apply (proj2 (proj1 (runtime_error_without_first_transaction
                         Examples.without_transactions initial))).
  split; [|reflexivity].
  unfold early_rules. repeat constructor.
Defined.

(** X6: the text of a rejection names its cause: when the endpoint
    answers 400 with the message of a rule, that rule is the first one
    the payload violates, its guard fired, and the store is left as it
    was. *)
Theorem rejection_names_first_violated_rule body s r s' :
  onWebhook body s = (HttpResponse 400 (rule_message r), s') →
  s' = s ∧ first_violated body = Some r ∧ fires r body.
Proof.
  unfold onWebhook.
  destruct (handleWebhook_cases body s)
    as [[Hf Hh] | [(r0 & Hf & Hr & Hh) | (He & Hn & Hh)]];
    rewrite Hh; cbn [message].
  - intros [=].
  - intros [= Hm <-]. apply rule_message_inj in Hm as ->. done.
  - intros [= Hm <-]. exfalso.
    destruct (nullish (body ?. "content" ?. "transactions"));
      by apply cannot_read_not_rule in Hm.
Qed.

Lemma rejection_names_first_violated_rule_witness :
  first_violated Examples.several_violations = Some RResponse
  ∧ fires RResponse Examples.several_violations.
Proof.
  apply (rejection_names_first_violated_rule Examples.several_violations
           initial RResponse initial).
  reflexivity.
Defined.

(* ===================================================================== *)
(** * Every run of the closure                                            *)
(* ===================================================================== *)

(** X7: when the request for the taxonomy fails, the closure fails with
    the same exception right after marking the job: the job stays
    [InProgress] with the data it had, no object is allocated, no
    classification is requested, nothing is committed and the job is
    never marked [Finished]. *)
Theorem taxonomy_failure_leaves_job_in_progress svc c s j e :
  jobs s !! c_job c = Some j →
  status j = Created →
  getCategories svc = Throw e →
  ∃ s', run_closure svc c s = (Throw e, s')
        ∧ jobs s' = <[c_job c := Job (id j) InProgress (data j)]> (jobs s)
        ∧ heap s' = heap s
        ∧ queue s' = queue s
        ∧ trace s' =
          trace s ++ [ Emit "job updated"
                         (Snapshot (id j) InProgress (deref s (data j)));
                       GetCategories ].
Proof.
  intros Hj Hst Hc. rewrite (run_closure_outcome svc c s j Hj).
  unfold closure_outcome. rewrite Hc. eexists. split; [reflexivity|].
  unfold started, snapshot_of. rewrite Hst. by cbn.
Qed.

Lemma taxonomy_failure_leaves_job_in_progress_witness :
  ∃ s', run_closure Cases.no_taxonomy Cases.closure_A Cases.store_A =
        (Throw Cases.network_down, s')
        ∧ jobs s' = <[0 := Job 0 InProgress 0]> (jobs Cases.store_A)
        ∧ heap s' = heap Cases.store_A
        ∧ queue s' = queue Cases.store_A
        ∧ trace s' =
          trace Cases.store_A
          ++ [ Emit "job updated"
                 (Snapshot 0 InProgress (deref Cases.store_A 0));
               GetCategories ].
Proof.
  apply (taxonomy_failure_leaves_job_in_progress Cases.no_taxonomy
           Cases.closure_A Cases.store_A (Job 0 Created 0)
           Cases.network_down); reflexivity.
Defined.

(** X8: when the classification request fails, the closure fails with
    the same exception after having fetched the taxonomy: the job stays
    [InProgress] with the data it had, no object is allocated, nothing
    is committed and the job is never marked [Finished]. *)
Theorem classification_failure_leaves_job_in_progress
    svc c s j categories e :
  jobs s !! c_job c = Some j →
  status j = Created →
  getCategories svc = Ok categories →
  classify svc (keys categories) (c_destinationName c) (c_description c)
  = Throw e →
  ∃ s', run_closure svc c s = (Throw e, s')
        ∧ jobs s' = <[c_job c := Job (id j) InProgress (data j)]> (jobs s)
        ∧ heap s' = heap s
        ∧ queue s' = queue s
        ∧ trace s' =
          trace s ++ [ Emit "job updated"
                         (Snapshot (id j) InProgress (deref s (data j)));
                       GetCategories;
                       Classify (keys categories) (c_destinationName c)
                                (c_description c) ].
Proof.
  intros Hj Hst Hc Hr. rewrite (run_closure_outcome svc c s j Hj).
  unfold closure_outcome. rewrite Hc, Hr. eexists. split; [reflexivity|].
  unfold started, snapshot_of. rewrite Hst. by cbn.
Qed.

Lemma classification_failure_leaves_job_in_progress_witness :
  ∃ s', run_closure Cases.no_classification Cases.closure_A Cases.store_A =
        (Throw Cases.network_down, s')
        ∧ jobs s' = <[0 := Job 0 InProgress 0]> (jobs Cases.store_A)
        ∧ heap s' = heap Cases.store_A
        ∧ queue s' = queue Cases.store_A
        ∧ trace s' =
          trace Cases.store_A
          ++ [ Emit "job updated"
                 (Snapshot 0 InProgress (deref Cases.store_A 0));
               GetCategories;
               Classify ["Groceries"; "Eating out"] (VStr "Cafe")
                        (VStr "coffee") ].
Proof.
  apply (classification_failure_leaves_job_in_progress Cases.no_classification
           Cases.closure_A Cases.store_A (Job 0 Created 0)
           Examples.groceries_taxonomy Cases.network_down); reflexivity.
Defined.

(** X9: when the commit fails, the closure fails with the same exception
    after the data of the job was replaced: the job stays [InProgress],
    its data is the new object with [category], [prompt] and [response]
    recorded, and it is never marked [Finished]. *)
Theorem commit_failure_keeps_recorded_data svc c s j categories r e :
  jobs s !! c_job c = Some j →
  status j = Created →
  truthy (c_body c ?. "content" ?. "id") = true →
  getCategories svc = Ok categories →
  classify svc (keys categories) (c_destinationName c) (c_description c)
  = Ok r →
  truthy (category r) = true →
  setCategory svc (c_body c ?. "content" ?. "id")
                  (c_body c ?. "content" ?. "transactions")
                  (map_get categories (category r)) = Throw e →
  ∃ s', run_closure svc c s = (Throw e, s')
        ∧ jobs s' =
          <[c_job c := Job (id j) InProgress (length (heap s))]> (jobs s)
        ∧ heap s' = heap s ++ [merged (deref s (data j)) r]
        ∧ queue s' = queue s
        ∧ trace s' =
          trace s
          ++ [ Emit "job updated"
                 (Snapshot (id j) InProgress (deref s (data j)));
               GetCategories;
               Classify (keys categories) (c_destinationName c)
                        (c_description c);
               Emit "job updated"
                 (Snapshot (id j) InProgress (merged (deref s (data j)) r));
               SetCategory (c_body c ?. "content" ?. "id")
                           (c_body c ?. "content" ?. "transactions")
                           (map_get categories (category r)) ].
Proof.
  intros Hj Hst Hid Hc Hr Htr Hset.
  rewrite (run_closure_outcome svc c s j Hj).
  unfold closure_outcome. rewrite Hc, Hr, Htr, !path_content, Hset by done.
  eexists. split; [reflexivity|].
  unfold started, snapshot_of. rewrite Hst. by cbn.
Qed.

Lemma commit_failure_keeps_recorded_data_witness :
  ∃ s', run_closure Cases.no_commit Cases.closure_A Cases.store_A =
        (Throw Cases.network_down, s')
        ∧ jobs s' = <[0 := Job 0 InProgress 1]> (jobs Cases.store_A)
        ∧ heap s' =
          heap Cases.store_A
          ++ [merged (deref Cases.store_A 0)
                (Classification (VStr "Groceries") (VStr "prompt")
                                (VStr "raw"))]
        ∧ queue s' = queue Cases.store_A
        ∧ trace s' =
          trace Cases.store_A
          ++ [ Emit "job updated"
                 (Snapshot 0 InProgress (deref Cases.store_A 0));
               GetCategories;
               Classify ["Groceries"; "Eating out"] (VStr "Cafe")
                        (VStr "coffee");
               Emit "job updated"
                 (Snapshot 0 InProgress
                    (merged (deref Cases.store_A 0)
                       (Classification (VStr "Groceries") (VStr "prompt")
                                       (VStr "raw"))));
               SetCategory (VStr "1") (VArr [Examples.coffee]) (VStr "12") ].
Proof.
  apply (commit_failure_keeps_recorded_data Cases.no_commit Cases.closure_A
           Cases.store_A (Job 0 Created 0) Examples.groceries_taxonomy
           (Classification (VStr "Groceries") (VStr "prompt") (VStr "raw"))
           Cases.network_down); reflexivity.
Defined.

Ltac frame_leaf Hj :=
  cbn [snd heap jobs queue trace];
  split_and!;
  [ done
  | by rewrite length_insert
  | by intros; rewrite list_lookup_insert_ne
  | by intros; rewrite ?lookup_app_l
  | by eexists
  | let j' := fresh in
    let H := fresh in
    intros ? j' [= <-] H;
    rewrite list_lookup_insert_eq in H by (by eapply lookup_lt_Some);
    by injection H as <- ].

(** X10: whatever the services answer and however the run ends, a run of
    a closure leaves the queue, the number of jobs, every job but its
    own, the identifier of its own job and every data object that
    existed before as they were, and only adds events to the trace. *)
Theorem closure_touches_only_its_job svc c s :
  let s' := (run_closure svc c s).2 in
  queue s' = queue s
  ∧ length (jobs s') = length (jobs s)
  ∧ (∀ i, i ≠ c_job c → jobs s' !! i = jobs s !! i)
  ∧ (∀ l, l < length (heap s) → heap s' !! l = heap s !! l)
  ∧ (∃ t, trace s' = trace s ++ t)
  ∧ (∀ j j', jobs s !! c_job c = Some j →
             jobs s' !! c_job c = Some j' → id j' = id j).
Proof.
  cbn zeta. destruct (jobs s !! c_job c) as [j|] eqn:Hj.
  - rewrite (run_closure_outcome svc c s j Hj). unfold closure_outcome.
    repeat case_match; frame_leaf Hj.
  - rewrite (run_closure_unknown svc c s Hj). cbn [snd].
    split_and!; try done. exists []. by rewrite app_nil_r.
Qed.

(* ===================================================================== *)
(** * Invariants of the store                                             *)
(* ===================================================================== *)

Lemma elem_of_insert_inv {A} (l : list A) i x y :
  y ∈ <[i := x]> l → y = x ∨ y ∈ l.
Proof.
  intros Hy. apply list_elem_of_lookup in Hy as [k Hk].
  apply list_lookup_insert_Some in Hk as [(_ & -> & _) | [_ Hk]]; [by left|].
  right. apply list_elem_of_lookup. by exists k.
Qed.

Lemma NoDup_insert_fresh {A} (l : list A) i x :
  NoDup l → x ∉ l → NoDup (<[i := x]> l).
Proof.
  revert i. induction l as [|a l IH]; intros i Hl Hx; [done|].
  apply NoDup_cons in Hl as [Ha Hl]. apply not_elem_of_cons in Hx as [Hxa Hx].
  destruct i as [|i]; cbn; apply NoDup_cons.
  - done.
  - split; [|by apply IH].
    intros Hin. apply elem_of_insert_inv in Hin as [-> | Hin]; done.
Qed.

Lemma well_formed_initial : well_formed initial.
Proof.
  split_and!.
  - intros i j Hj. cbn in Hj. by rewrite lookup_nil in Hj.
  - constructor.
  - intros c Hc. cbn in Hc. by apply elem_of_nil in Hc.
Qed.

(** A job that keeps its identifier and its data object. *)
Lemma well_formed_kept s i j st t :
  well_formed s → jobs s !! i = Some j →
  well_formed (State (heap s) (<[i := Job (id j) st (data j)]> (jobs s))
                     (queue s) t).
Proof.
  intros (Hjobs & Hnd & Hq) Hj. split_and!; cbn [heap jobs queue].
  - intros i' j' Hj'.
    apply list_lookup_insert_Some in Hj' as [(<- & <- & _) | [_ Hj']];
      [cbn; by apply (Hjobs _ _ Hj) | by apply Hjobs].
  - rewrite list_fmap_insert. cbn [data].
    rewrite list_insert_id; [done|]. by rewrite list_lookup_fmap, Hj.
  - intros c Hc. rewrite length_insert. by apply Hq.
Qed.

(** A job that keeps its identifier and gets a fresh data object. *)
Lemma well_formed_replaced s i j st d t :
  well_formed s → jobs s !! i = Some j →
  well_formed (State (heap s ++ [d])
                     (<[i := Job (id j) st (length (heap s))]> (jobs s))
                     (queue s) t).
Proof.
  intros (Hjobs & Hnd & Hq) Hj. split_and!; cbn [heap jobs queue].
  - intros i' j' Hj'. rewrite length_app. cbn [length].
    apply list_lookup_insert_Some in Hj' as [(<- & <- & _) | [_ Hj']].
    + cbn. split; [by apply (Hjobs _ _ Hj) | lia].
    + destruct (Hjobs _ _ Hj'). split; [done | lia].
  - rewrite list_fmap_insert. cbn [data].
    apply NoDup_insert_fresh; [done|].
    intros Hin. apply list_elem_of_fmap in Hin as (j' & Hd & Hin).
    apply list_elem_of_lookup in Hin as [i' Hi'].
    destruct (Hjobs _ _ Hi'). lia.
  - intros c Hc. rewrite length_insert. by apply Hq.
Qed.

(** Only events are added. *)
Lemma well_formed_trace s t :
  well_formed s → well_formed (State (heap s) (jobs s) (queue s) t).
Proof. by intros (Hjobs & Hnd & Hq). Qed.

(** The queue holds no other closure than before. *)
Lemma well_formed_queue s q :
  well_formed s →
  (∀ c, c ∈ waiting q ++ (f_closure <$> suspended q) → c ∈ held s) →
  well_formed (set_queue q s).
Proof.
  intros (Hjobs & Hnd & Hq) Hsub. split_and!; [done | done |].
  intros c Hc. apply Hq, Hsub, Hc.
Qed.

Lemma well_formed_accepted body tx s :
  well_formed s →
  truthy (body ?. "content" ?. "id") = true →
  well_formed (accepted_store body tx s).
Proof.
  intros (Hjobs & Hnd & Hq) Hid. unfold accepted_store.
  split_and!; cbn [heap jobs queue].
  - intros i j Hj. rewrite length_app. cbn [length].
    apply lookup_app_Some in Hj as [Hj | [Hle Hj]].
    + destruct (Hjobs _ _ Hj). split; [done | lia].
    + apply list_lookup_singleton_Some in Hj as [Hi <-]. cbn. lia.
  - rewrite fmap_app. apply NoDup_app. split_and!; [done | | apply NoDup_singleton].
    intros l Hl Hl'. apply list_elem_of_singleton in Hl'.
    apply list_elem_of_fmap in Hl as (j & Hd & Hin).
    apply list_elem_of_lookup in Hin as [i Hi].
    destruct (Hjobs _ _ Hi). cbn in Hl'. lia.
  - intros c Hc. rewrite length_app. cbn [length].
    unfold held in Hc. cbn [queue waiting suspended] in Hc.
    rewrite <- app_assoc in Hc.
    apply elem_of_app in Hc as [Hc | Hc].
    + destruct (Hq c) as [Hlt Hidc];
        [unfold held; apply elem_of_app; by left | split; [lia | done]].
    + apply elem_of_cons in Hc as [-> | Hc]; [cbn; split; [lia | done]|].
      destruct (Hq c) as [Hlt Hidc];
        [unfold held; apply elem_of_app; by right | split; [lia | done]].
Qed.

(** [start] keeps the store well formed: the closure it takes goes from
    those that wait to those that are suspended, or is gone. *)
Lemma well_formed_started s : well_formed s → well_formed (started_store s).
Proof.
  intros Hwf. unfold started_store.
  destruct (free (queue s)); [|done].
  destruct (waiting (queue s)) as [|c rest] eqn:Hw; [done|].
  assert (∀ c', c' ∈ rest ++ (f_closure <$> suspended (queue s)) →
                c' ∈ held s) as Hrest.
  { intros c' Hc'. unfold held. rewrite Hw. by apply elem_of_cons; right. }
  destruct (jobs s !! c_job c) as [j|] eqn:Hj.
  - apply (well_formed_queue
             (State (heap s) (<[c_job c := started j]> (jobs s)) (queue s) _));
      [by apply (well_formed_kept s (c_job c) j)|].
    unfold held. cbn [queue waiting suspended]. intros c' Hc'.
    rewrite Hw, fmap_app, app_assoc in *.
    apply elem_of_app in Hc' as [Hc' | Hc'].
    + by apply elem_of_cons; right.
    + apply list_elem_of_singleton in Hc' as ->. cbn. apply list_elem_of_here.
  - by apply well_formed_queue.
Qed.

Lemma well_formed_request body s :
  well_formed s → well_formed (onWebhook body s).2.
Proof.
  intros Hwf. unfold onWebhook.
  destruct (handleWebhook_cases body s)
    as [[Hf Hh] | [(r & Hf & Hr & Hh) | (He & Hn & Hh)]];
    rewrite Hh; cbn [snd]; [|done|done].
  apply well_formed_started, well_formed_accepted; [done|].
  apply no_violation_passes in Hf as [_ Hp]. by apply guard_content_id.
Qed.

(** A suspended closure that runs a piece is suspended again, or gone. *)
Lemma well_formed_resumed s k c st0 (o : option stage) :
  well_formed s →
  suspended (queue s) !! k = Some (Flight c st0) →
  well_formed
    (set_queue
       (QueueState (waiting (queue s)) (pending (queue s))
          (match o with
           | Some st => <[k := Flight c st]> (suspended (queue s))
           | None => delete k (suspended (queue s))
           end)) s).
Proof.
  intros Hwf Hk. apply well_formed_queue; [done|].
  cbn [waiting suspended]. intros c' Hc'. unfold held.
  apply elem_of_app in Hc' as [Hc' | Hc']; apply elem_of_app; [by left|].
  right. apply list_elem_of_fmap in Hc' as (f & -> & Hf).
  destruct o as [st|].
  - apply elem_of_insert_inv in Hf as [-> | Hf].
    + apply list_elem_of_fmap. exists (Flight c st0). split; [done|].
      by eapply list_elem_of_lookup_2.
    + apply list_elem_of_fmap. by exists f.
  - apply list_elem_of_fmap. exists f. split; [done|].
    by eapply list_elem_of_delete_inv.
Qed.

(** The pieces of a closure keep the store well formed and leave the
    queue alone. *)
Lemma well_formed_piece s c st0 k (m : M (option stage)) :
  well_formed s →
  suspended (queue s) !! k = Some (Flight c st0) →
  well_formed (m s).2 → queue (m s).2 = queue s →
  well_formed (resume k c m s).
Proof.
  intros Hwf Hk Hm Hq. unfold resume.
  destruct (m s) as [[[st|]|e] s'] eqn:E; cbn [snd] in *;
    rewrite <- Hq in Hk.
  - by apply (well_formed_resumed s' k c st0 (Some st)).
  - by apply (well_formed_resumed s' k c st0 None).
  - by apply (well_formed_resumed s' k c st0 None).
Qed.

Lemma suspended_held s k f :
  suspended (queue s) !! k = Some f → f_closure f ∈ held s.
Proof.
  intros Hk. unfold held. apply elem_of_app. right.
  apply list_elem_of_fmap. exists f. split; [done|].
  by eapply list_elem_of_lookup_2.
Qed.

Lemma well_formed_classified s c categories r :
  well_formed s → c ∈ held s →
  well_formed (after_classification c categories r s).2
  ∧ queue (after_classification c categories r s).2 = queue s.
Proof.
  intros Hwf Hc. destruct Hwf as (Hjobs & Hnd & Hq).
  destruct (Hq _ Hc) as [Hlt _].
  destruct (lookup_lt_is_Some_2 _ _ Hlt) as [j Hj].
  rewrite (after_classification_outcome c categories r s j Hj).
  unfold classified_outcome.
  repeat case_match; cbn [snd queue]; (split; [|done]);
    by apply well_formed_replaced.
Qed.

Lemma well_formed_committed s c :
  well_formed s → c ∈ held s →
  well_formed (after_commit c s).2 ∧ queue (after_commit c s).2 = queue s.
Proof.
  intros Hwf Hc. destruct Hwf as (Hjobs & Hnd & Hq).
  destruct (Hq _ Hc) as [Hlt _].
  destruct (lookup_lt_is_Some_2 _ _ Hlt) as [j Hj].
  rewrite (after_commit_known c s j Hj). cbn [snd queue].
  split; [|done]. by apply well_formed_kept.
Qed.

Lemma well_formed_next s : well_formed s → well_formed (next s).2.
Proof.
  intros Hwf. unfold next. rewrite start_store. cbn [snd].
  apply well_formed_started, well_formed_queue; [done|].
  by cbn [waiting suspended].
Qed.

Lemma well_formed_ended s : well_formed s → well_formed (ended s).
Proof.
  intros Hwf. apply well_formed_queue; [done|].
  cbn [waiting suspended app]. intros c Hc. unfold held.
  apply elem_of_app. by right.
Qed.

Lemma well_formed_step s s' : well_formed s → step s s' → well_formed s'.
Proof.
  intros Hwf Hstep. destruct Hstep as
    [body s | k c categories s Hk | k c categories r s Hk
    | k c i t ci s Hk | k f e s Hk | s | s].
  - by apply well_formed_request.
  - eapply well_formed_piece; [done | exact Hk | | done].
    rewrite after_taxonomy_store. by apply well_formed_trace.
  - pose proof (suspended_held _ _ _ Hk) as Hc.
    eapply well_formed_piece; [done | exact Hk | |];
      by apply well_formed_classified.
  - pose proof (suspended_held _ _ _ Hk) as Hc.
    eapply well_formed_piece; [done | exact Hk | |];
      by apply well_formed_committed.
  - destruct f as [c st0]. by eapply well_formed_piece.
  - by apply well_formed_next.
  - by apply well_formed_ended.
Qed.

Lemma reachable_well_formed s : reachable s → well_formed s.
Proof.
  unfold reachable. revert s. apply rtc_ind_r.
  - apply well_formed_initial.
  - intros s s' _ Hstep IH. by eapply well_formed_step.
Qed.

(** X11: in every store that the server reaches from the initial one,
    whatever requests arrive, whatever the services answer and whenever
    the queue starts, abandons or drops closures, two jobs never share
    an identifier or a data object, the data object of every job
    exists, and every closure that waits or is suspended has its job in
    the registry. *)
Theorem reachable_store_invariant s :
  reachable s →
  (∀ i i' j j', jobs s !! i = Some j → jobs s !! i' = Some j' → i ≠ i' →
                id j ≠ id j' ∧ data j ≠ data j')
  ∧ (∀ i j, jobs s !! i = Some j → is_Some (heap s !! data j))
  ∧ (∀ c, c ∈ waiting (queue s) ∨ c ∈ f_closure <$> suspended (queue s) →
          ∃ j, jobs s !! c_job c = Some j ∧ id j = c_job c).
Proof.
  intros Hr. destruct (reachable_well_formed s Hr) as (Hjobs & Hnd & Hq).
  split_and!.
  - intros i i' j j' Hj Hj' Hne.
    destruct (Hjobs _ _ Hj) as [Hi _], (Hjobs _ _ Hj') as [Hi' _].
    split; [congruence|]. intros Hd. apply Hne.
    eapply (NoDup_lookup _ i i' (data j) Hnd);
      rewrite list_lookup_fmap; [by rewrite Hj | by rewrite Hj', Hd].
  - intros i j Hj. apply lookup_lt_is_Some_2. by apply (Hjobs _ _ Hj).
  - intros c Hc. destruct (Hq c) as [Hlt _];
      [unfold held; by apply elem_of_app|].
    destruct (lookup_lt_is_Some_2 _ _ Hlt) as [j Hj].
    exists j. split; [done|]. by apply (Hjobs _ _ Hj).
Qed.

Lemma reachable_store_invariant_witness :
  (∃ j, jobs Cases.store_AA !! c_job Cases.closure_A = Some j
        ∧ id j = c_job Cases.closure_A)
  ∧ (∃ j, jobs Cases.store_AA !! c_job Cases.closure_A' = Some j
          ∧ id j = c_job Cases.closure_A').
Proof.
  assert (reachable Cases.store_AA) as Hr.
  { eapply rtc_l; [apply (step_request Examples.scenario_A)|].
    apply rtc_once, step_request. }
  split.
  - apply (reachable_store_invariant Cases.store_AA Hr).
    right. by vm_compute; apply list_elem_of_here.
  - apply (reachable_store_invariant Cases.store_AA Hr).
    left. by vm_compute; apply list_elem_of_here.
Defined.

(** X12: in such a store, a closure that waits fails, when it is run,
    only if a service does: the exception of a failed run is one that
    the request for the taxonomy, the classification or the commit
    threw. *)
Theorem queued_closure_fails_only_with_services svc c s e s' :
  reachable s →
  c ∈ waiting (queue s) →
  run_closure svc c s = (Throw e, s') →
  thrown_by_service svc e.
Proof.
  intros Hr Hc. destruct (reachable_well_formed s Hr) as (Hjobs & Hnd & Hq).
  destruct (Hq c) as [Hlt Hid]; [unfold held; apply elem_of_app; by left|].
  destruct (lookup_lt_is_Some_2 _ _ Hlt) as [j Hj].
  rewrite (run_closure_outcome svc c s j Hj). unfold closure_outcome.
  rewrite !path_content by done. unfold thrown_by_service.
  destruct (getCategories svc) as [categories|e0] eqn:Hcats;
    [|intros [= <- _]; by left].
  destruct (classify svc (keys categories) (c_destinationName c)
              (c_description c)) as [r|e0] eqn:Hcl;
    [|intros [= <- _]; right; left; eauto].
  destruct (truthy (category r)); [|intros [=]].
  destruct (setCategory svc _ _ _) as [[]|e0] eqn:Hset; [intros [=]|].
  intros [= <- _]. right; right. eauto.
Qed.

Lemma queued_closure_fails_only_with_services_witness :
  thrown_by_service Cases.no_taxonomy Cases.network_down.
Proof.
  apply (queued_closure_fails_only_with_services Cases.no_taxonomy
           Cases.closure_A' Cases.store_AA Cases.network_down
           (run_closure Cases.no_taxonomy Cases.closure_A' Cases.store_AA).2).
  - eapply rtc_l; [apply (step_request Examples.scenario_A)|].
    apply rtc_once, step_request.
  - by vm_compute; apply list_elem_of_here.
  - by vm_compute.
Defined.

(* ===================================================================== *)
(** * Requests in a row                                                   *)
(* ===================================================================== *)

Lemma serve_cons body later s :
  serve (body :: later) s =
  ((onWebhook body s).1 :: (serve later (onWebhook body s).2).1,
   (serve later (onWebhook body s).2).2).
Proof.
  change (serve (body :: later) s)
    with (let '(answer, s1) := onWebhook body s in
          let '(answers, s2) := serve later s1 in
          (answer :: answers, s2)).
  destruct (onWebhook body s) as [answer s1]. cbn [fst snd].
  by destruct (serve later s1).
Qed.

(** A request is either accepted, and leaves what [push] makes of
    [accepted_store], or rejected, and leaves the store as it was. *)
Lemma onWebhook_store body s :
  (first_violated body = None
   ∧ (onWebhook body s).2
     = started_store (accepted_store body (first_tx body) s))
  ∨ (first_violated body ≠ None ∧ (onWebhook body s).2 = s).
Proof.
  unfold onWebhook.
  destruct (handleWebhook_cases body s)
    as [[Hf Hh] | [(r & Hf & Hr & Hh) | (He & Hn & Hh)]]; rewrite Hh.
  - by left.
  - right. by rewrite Hf.
  - right. split; [|done]. intros Hf.
    apply no_violation_passes in Hf as [Hp _].
    unfold has_first_transaction in Hp. congruence.
Qed.

(** Requests in a row on a queue whose slots are taken: every accepted
    one adds a job and a closure that waits. *)
Lemma serve_busy bodies s :
  free (queue s) = false →
  length (jobs (serve bodies s).2) = length (jobs s) + length (accepted bodies)
  ∧ waiting (queue (serve bodies s).2) =
    waiting (queue s)
    ++ imap (λ k body, closure_of (length (jobs s) + k) body) (accepted bodies)
  ∧ pending (queue (serve bodies s).2) = pending (queue s)
  ∧ suspended (queue (serve bodies s).2) = suspended (queue s).
Proof.
  revert s. induction bodies as [|body later IH]; intros s Hb.
  - cbn. split_and!; [lia | by rewrite app_nil_r | done | done].
  - rewrite serve_cons. cbn [fst snd]. unfold accepted.
    destruct (onWebhook_store body s) as [[Hf ->] | [Hf ->]].
    + rewrite accepted_started_busy by done.
      destruct (IH (accepted_store body (first_tx body) s))
        as (IH1 & IH2 & IH3 & IH4); [done|].
      rewrite IH1, IH2, IH3, IH4. clear IH IH1 IH2 IH3 IH4.
      rewrite filter_cons_True by done. cbn [imap length].
      unfold accepted_store;
        cbn [jobs queue waiting pending suspended].
      rewrite length_app, <- app_assoc. cbn [length app].
      fold (accepted later).
      split_and!; [lia | | done | done]. do 2 f_equal.
      * unfold closure_of. by rewrite Nat.add_0_r.
      * apply imap_ext. intros k b _. cbn. f_equal. lia.
    + rewrite filter_cons_False by done. by apply IH.
Qed.

Lemma begun_store_busy body tx s :
  free (queue s) = true → free (queue (begun_store body tx s)) = false.
Proof.
  unfold free, begun_store. cbn [queue pending queue_config concurrency].
  intros Hb. apply Nat.ltb_lt in Hb. apply Nat.ltb_ge. lia.
Qed.

(** X13: requests handled in a row, with nothing else in between, are
    each answered as if alone, and the accepted ones, and only they,
    add a job each, numbered in the order of arrival.  When every slot
    of the queue is taken, their closures wait in the order of arrival
    behind those that wait already.  When the queue has a free slot
    and nothing waits, the closure of the first accepted request is
    started inside that request and is suspended at its first [await];
    the closures of the following ones wait in the order of
    arrival. *)
Theorem requests_queue_in_arrival_order bodies s :
  (free (queue s) = true → waiting (queue s) = []) →
  let pushed :=
    imap (λ k body, closure_of (length (jobs s) + k) body) (accepted bodies) in
  (serve bodies s).1 = (λ body, (onWebhook body initial).1) <$> bodies
  ∧ length (jobs (serve bodies s).2) = length (jobs s) + length (accepted bodies)
  ∧ (free (queue s) = false →
     waiting (queue (serve bodies s).2) = waiting (queue s) ++ pushed
     ∧ suspended (queue (serve bodies s).2) = suspended (queue s))
  ∧ (free (queue s) = true →
     match pushed with
     | [] => queue (serve bodies s).2 = queue s
     | c :: later =>
         waiting (queue (serve bodies s).2) = later
         ∧ suspended (queue (serve bodies s).2)
           = suspended (queue s) ++ [Flight c AwaitTaxonomy]
     end).
Proof.
  intros Hd. cbn zeta. split_and!.
  - clear Hd. revert s. induction bodies as [|body later IH]; intros s; [done|].
    rewrite serve_cons. cbn [fst]. rewrite fmap_cons, IH.
    by rewrite (answer_independent_of_store_aux body s initial).
  - clear Hd. revert s. induction bodies as [|body later IH]; intros s.
    + cbn. lia.
    + rewrite serve_cons. cbn [snd]. rewrite IH. unfold accepted.
      destruct (onWebhook_store body s) as [[Hf ->] | [Hf ->]].
      * rewrite filter_cons_True by done.
        destruct (started_store_frame (accepted_store body (first_tx body) s))
          as (_ & -> & _).
        unfold accepted_store. cbn [jobs length]. rewrite length_app.
        cbn [length]. lia.
      * by rewrite filter_cons_False by done.
  - intros Hb. by destruct (serve_busy bodies s Hb) as (_ & -> & _ & ->).
  - revert s Hd. induction bodies as [|body later IH]; intros s Hd Hb; [done|].
    rewrite serve_cons. cbn [snd]. unfold accepted.
    destruct (onWebhook_store body s) as [[Hf ->] | [Hf ->]].
    + rewrite filter_cons_True by done. cbn [imap].
      rewrite accepted_started_free by auto.
      pose proof (begun_store_busy body (first_tx body) s Hb) as Hb'.
      destruct (serve_busy later _ Hb') as (_ & -> & _ & ->).
      unfold begun_store. cbn [jobs queue waiting suspended app].
      rewrite length_app. cbn [length]. split.
      * apply imap_ext. intros k b _. cbn. f_equal. lia.
      * do 3 f_equal. by rewrite Nat.add_0_r.
    + rewrite filter_cons_False by done. by apply IH.
Qed.

Lemma requests_queue_in_arrival_order_witness :
  let bodies := [Examples.scenario_A; Examples.several_violations;
                 Examples.scenario_A] in
  let pushed :=
    imap (λ k body, closure_of (length (jobs initial) + k) body)
         (accepted bodies) in
  (serve bodies initial).1 = (λ body, (onWebhook body initial).1) <$> bodies
  ∧ length (jobs (serve bodies initial).2)
    = length (jobs initial) + length (accepted bodies)
  ∧ (free (queue initial) = false →
     waiting (queue (serve bodies initial).2)
     = waiting (queue initial) ++ pushed
     ∧ suspended (queue (serve bodies initial).2) = suspended (queue initial))
  ∧ (free (queue initial) = true →
     match pushed with
     | [] => queue (serve bodies initial).2 = queue initial
     | c :: later =>
         waiting (queue (serve bodies initial).2) = later
         ∧ suspended (queue (serve bodies initial).2)
           = suspended (queue initial) ++ [Flight c AwaitTaxonomy]
     end).
Proof.
  apply (requests_queue_in_arrival_order
           [Examples.scenario_A; Examples.several_violations;
            Examples.scenario_A] initial).
  intros _. reflexivity.
Defined.

(* ===================================================================== *)
(** * The committed category                                              *)
(* ===================================================================== *)

Lemma lookup_name_absent name categories :
  name ∉ keys categories → lookup_name name categories = VUndefined.
Proof.
  unfold keys. induction categories as [|[n i] rest IH]; [done|].
  rewrite fmap_cons. cbn [fst lookup_name]. intros Hn.
  apply not_elem_of_cons in Hn as [Hne Hn].
  destruct (String.eqb n name) eqn:E; [|by apply IH].
  apply String.eqb_eq in E. congruence.
Qed.

Lemma lookup_name_found name i categories :
  NoDup (keys categories) → (name, i) ∈ categories →
  lookup_name name categories = i.
Proof.
  unfold keys. induction categories as [|[n i0] rest IH]; intros Hnd Hin.
  - by apply elem_of_nil in Hin.
  - rewrite fmap_cons in Hnd. cbn [fst] in Hnd.
    apply NoDup_cons in Hnd as [Hn Hnd]. cbn [lookup_name].
    apply elem_of_cons in Hin as [[= -> ->] | Hin].
    + by rewrite String.eqb_refl.
    + destruct (String.eqb n name) eqn:E; [|by apply IH].
      apply String.eqb_eq in E as ->. exfalso. apply Hn.
      apply list_elem_of_fmap. by exists (name, i).
Qed.

(** X14: the closure commits whatever category the classification
    returns, known or not: a truthy category that is not a name of the
    taxonomy is committed with the identifier [undefined], and a name of
    the taxonomy with the identifier that the taxonomy gives it. *)
Theorem committed_identifier svc c s j categories r :
  jobs s !! c_job c = Some j →
  truthy (c_body c ?. "content" ?. "id") = true →
  getCategories svc = Ok categories →
  classify svc (keys categories) (c_destinationName c) (c_description c)
  = Ok r →
  truthy (category r) = true →
  ((∀ name, category r = VStr name → name ∉ keys categories) →
   SetCategory (c_body c ?. "content" ?. "id")
               (c_body c ?. "content" ?. "transactions") VUndefined
   ∈ trace (run_closure svc c s).2)
  ∧ (∀ name i, category r = VStr name → NoDup (keys categories) →
               (name, i) ∈ categories →
     SetCategory (c_body c ?. "content" ?. "id")
                 (c_body c ?. "content" ?. "transactions") i
     ∈ trace (run_closure svc c s).2).
Proof.
  intros Hj Hid Hc Hr Htr.
  assert (SetCategory (c_body c ?. "content" ?. "id")
                      (c_body c ?. "content" ?. "transactions")
                      (map_get categories (category r))
          ∈ trace (run_closure svc c s).2) as Hcall.
  { rewrite (run_closure_outcome svc c s j Hj). unfold closure_outcome.
    rewrite Hc, Hr, Htr, !path_content by done.
    destruct (setCategory svc _ _ _) as [[]|e]; cbn [snd trace];
      apply elem_of_app; right; repeat constructor. }
  split.
  - intros Hn. replace VUndefined with (map_get categories (category r));
      [done|].
    destruct (category r); try reflexivity.
    cbn [map_get]. apply lookup_name_absent. by apply Hn.
  - intros name i Hname Hnd Hin. rewrite Hname in Hcall.
    cbn [map_get] in Hcall. by rewrite (lookup_name_found name i) in Hcall.
Qed.

Lemma committed_identifier_witness :
  SetCategory (VStr "1") (VArr [Examples.coffee]) VUndefined
  ∈ trace (run_closure (Examples.answering (VStr "Travel")) Cases.closure_A
             Cases.store_A).2.
Proof.
  apply (committed_identifier (Examples.answering (VStr "Travel"))
           Cases.closure_A Cases.store_A (Job 0 Created 0)
           Examples.groceries_taxonomy
           (Classification (VStr "Travel") (VStr "prompt") (VStr "raw")));
    try reflexivity.
  intros name [= <-]. unfold keys. cbn.
  rewrite !not_elem_of_cons. split_and!; try done. apply not_elem_of_nil.
Defined.

(* ===================================================================== *)
(** * What an accepted request is                                         *)
(* ===================================================================== *)

Lemma is_string_true v lit : is_string v lit = true ↔ v = VStr lit.
Proof.
  destruct v; cbn; try (split; [discriminate | intros [=]]).
  rewrite String.eqb_eq. split; [by intros -> | by intros [= ->]].
Qed.

Lemma is_null_true v : is_null v = true ↔ v = VNull.
Proof. destruct v; cbn; split; try done. Qed.

Lemma first_violated_None body :
  first_violated body = None ↔ ∀ r, violates r body = false.
Proof.
  unfold first_violated, rules. cbn [first_of]. split.
  - intros Hf r.
    repeat match type of Hf with
           | (if violates ?r0 body then _ else _) = _ =>
               let E := fresh "E" in
               destruct (violates r0 body) eqn:E; [discriminate Hf |]
           end.
    by destruct r.
  - intros H. by rewrite !H.
Qed.

(** X15: the endpoint answers 200 exactly to the bodies whose [trigger]
    is the string [STORE_TRANSACTION], whose [response] is the string
    [TRANSACTIONS], whose [content.id] is truthy, whose
    [content.transactions] has not length 0, and whose first transaction
    has the string [withdrawal] for [type], [null] for [category_id] and
    a truthy [description] and [destination_name]. *)
Theorem accepted_exactly_when body s :
  (onWebhook body s).1 = HttpResponse 200 "Queued"
  ↔ body ?. "trigger" = VStr "STORE_TRANSACTION"
    ∧ body ?. "response" = VStr "TRANSACTIONS"
    ∧ truthy (body ?. "content" ?. "id") = true
    ∧ is_zero (body ?. "content" ?. "transactions" ?. "length") = false
    ∧ first_tx body ?. "type" = VStr "withdrawal"
    ∧ first_tx body ?. "category_id" = VNull
    ∧ truthy (first_tx body ?. "description") = true
    ∧ truthy (first_tx body ?. "destination_name") = true.
Proof.
  assert ((onWebhook body s).1 = HttpResponse 200 "Queued"
          ↔ first_violated body = None) as ->.
  { unfold onWebhook.
    destruct (handleWebhook_cases body s)
      as [[Hf Hh] | [(r & Hf & Hr & Hh) | (He & Hn & Hh)]]; rewrite Hh;
      cbn [fst].
    - done.
    - rewrite Hf. split; intros [=].
    - split; [intros [=]|]. intros Hf.
      apply no_violation_passes in Hf as [Hp _].
      unfold has_first_transaction in Hp. congruence. }
  rewrite first_violated_None.
  rewrite <- !is_string_true, <- is_null_true. split.
  - intros H.
    pose proof (H RTrigger) as H1. pose proof (H RResponse) as H2.
    pose proof (H RContentId) as H3. pose proof (H RTransactions) as H4.
    pose proof (H RType) as H5. pose proof (H RCategory) as H6.
    pose proof (H RDescription) as H7.
    pose proof (H RDestinationName) as H8.
    cbn [violates] in *.
    rewrite negb_false_iff in H1, H2, H3, H5, H6, H7, H8. done.
  - intros (H1 & H2 & H3 & H4 & H5 & H6 & H7 & H8) r.
    destruct r; cbn [violates];
      by rewrite ?H1, ?H2, ?H3, ?H4, ?H5, ?H6, ?H7, ?H8.
Qed.

(* ===================================================================== *)
(** * Observers                                                           *)
(* ===================================================================== *)

Lemma replay_cons view a events :
  replay view (a :: events) = replay (apply_event view a) events.
Proof. reflexivity. Qed.

Lemma replay_app view events events' :
  replay view (events ++ events') = replay (replay view events) events'.
Proof. apply foldl_app. Qed.

Lemma numbered_insert view i sn :
  numbered view → snap_id sn = i → numbered (<[i := sn]> view).
Proof.
  intros Hv Hsn k x Hk.
  apply list_lookup_insert_Some in Hk as [(<- & <- & _) | [_ Hk]];
    [done | by apply Hv].
Qed.

(** In a numbered view, the update of the job [i] replaces the [i]-th
    snapshot. *)
Lemma apply_updated view i sn :
  numbered view → snap_id sn = i →
  apply_event view (Emit "job updated" sn) = <[i := sn]> view.
Proof.
  intros Hv Hsn. cbn. apply list_eq. intros k.
  rewrite list_lookup_fmap, list_lookup_insert.
  destruct (view !! k) as [x|] eqn:Hk; cbn.
  - pose proof (Hv _ _ Hk) as Hx. apply lookup_lt_Some in Hk.
    destruct (decide (snap_id x = snap_id sn)) as [He|Hne].
    + by rewrite decide_True by (split; lia).
    + by rewrite decide_False by (intros [? ?]; lia).
  - apply lookup_ge_None in Hk.
    by rewrite decide_False by (intros [? ?]; lia).
Qed.

Lemma snapshots_numbered s : well_formed s → numbered (snapshots s).
Proof.
  intros (Hjobs & _ & _) k x Hk. unfold snapshots in Hk.
  rewrite list_lookup_fmap in Hk.
  apply fmap_Some in Hk as (j & Hj & ->). cbn.
  by apply (Hjobs _ _ Hj).
Qed.

(** Allocating an object changes no snapshot. *)
Lemma snapshots_alloc s d js q t :
  well_formed s →
  snapshot_of (State (heap s ++ [d]) js q t) <$> jobs s = snapshots s.
Proof.
  intros (Hjobs & _ & _). apply list_fmap_ext. intros k j Hj.
  unfold snapshot_of, deref; cbn [heap]. f_equal.
  rewrite lookup_app_l; [done|]. by apply (Hjobs _ _ Hj).
Qed.

Lemma snapshots_kept s i j st q t :
  snapshots (State (heap s) (<[i := Job (id j) st (data j)]> (jobs s)) q t)
  = <[i := Snapshot (id j) st (deref s (data j))]> (snapshots s).
Proof. unfold snapshots. cbn [jobs]. by rewrite list_fmap_insert. Qed.

Lemma snapshots_replaced s i j st d q t :
  well_formed s →
  snapshots (State (heap s ++ [d])
                   (<[i := Job (id j) st (length (heap s))]> (jobs s)) q t)
  = <[i := Snapshot (id j) st d]> (snapshots s).
Proof.
  intros Hwf. unfold snapshots at 1. cbn [jobs].
  rewrite list_fmap_insert, (snapshots_alloc s d _ _ _ Hwf). f_equal.
  unfold snapshot_of, deref; cbn. by rewrite lookup_last.
Qed.

Lemma snapshots_accepted body tx s :
  well_formed s →
  snapshots (accepted_store body tx s)
  = snapshots s
    ++ [Snapshot (length (jobs s)) Created
          {[ "destinationName" := read tx "destination_name";
             "description" := read tx "description" ]}].
Proof.
  intros Hwf. unfold snapshots at 1, accepted_store. cbn [jobs].
  rewrite fmap_app, (snapshots_alloc s _ _ _ _ Hwf). f_equal.
  unfold snapshot_of, deref; cbn. by rewrite lookup_last.
Qed.

Lemma apply_GetCategories view : apply_event view GetCategories = view.
Proof. reflexivity. Qed.

Lemma apply_Classify view names dn d :
  apply_event view (Classify names dn d) = view.
Proof. reflexivity. Qed.

Lemma apply_SetCategory view i t k :
  apply_event view (SetCategory i t k) = view.
Proof. reflexivity. Qed.

Lemma in_sync_refl s : in_sync s s.
Proof. exists []. by rewrite app_nil_r. Qed.

Lemma in_sync_trans s1 s2 s3 : in_sync s1 s2 → in_sync s2 s3 → in_sync s1 s3.
Proof.
  intros (e1 & Ht1 & Hv1) (e2 & Ht2 & Hv2). exists (e1 ++ e2). split.
  - by rewrite Ht2, Ht1, app_assoc.
  - by rewrite replay_app, Hv1, Hv2.
Qed.

(** The queue is no part of what a socket is sent. *)
Lemma in_sync_queue_r s s' q : in_sync s s' → in_sync s (set_queue q s').
Proof. intros (events & Ht & Hv). by exists events. Qed.

Lemma in_sync_queue_l s s' q : in_sync (set_queue q s) s' → in_sync s s'.
Proof. intros (events & Ht & Hv). by exists events. Qed.

Ltac sync_leaf i Hwf Hnum Hid :=
  cbn [snd trace]; eexists; (split; [reflexivity|]); cbn [app];
  repeat
    (rewrite replay_cons;
     first
       [ rewrite apply_GetCategories
       | rewrite apply_Classify
       | rewrite apply_SetCategory
       | rewrite (apply_updated _ i)
           by first [ exact Hid
                    | repeat apply numbered_insert;
                      first [exact Hnum | exact Hid] ] ]);
  unfold replay; cbn [foldl];
  rewrite ?list_insert_insert_eq;
  first [ by rewrite snapshots_kept | by rewrite snapshots_replaced ].

(** A run of a closure tells the observers what it did to the
    registry, however it ends. *)
Lemma run_in_sync svc c s :
  well_formed s → in_sync s (run_closure svc c s).2.
Proof.
  intros Hwf. pose proof (snapshots_numbered s Hwf) as Hnum.
  destruct (jobs s !! c_job c) as [j|] eqn:Hj.
  2: { rewrite (run_closure_unknown svc c s Hj). apply in_sync_refl. }
  assert (id j = c_job c) as Hid by (destruct Hwf as [H _]; by apply (H _ _ Hj)).
  rewrite (run_closure_outcome svc c s j Hj). unfold closure_outcome.
  unfold snapshot_of, started, in_sync.
  repeat case_match; sync_leaf (c_job c) Hwf Hnum Hid.
Qed.

Lemma accepted_in_sync body tx s :
  well_formed s → in_sync s (accepted_store body tx s).
Proof.
  intros Hwf. eexists. split; [reflexivity|]. by rewrite snapshots_accepted.
Qed.

(** What [start] does to a job is announced. *)
Lemma started_in_sync s : well_formed s → in_sync s (started_store s).
Proof.
  intros Hwf. pose proof (snapshots_numbered s Hwf) as Hnum.
  unfold started_store.
  destruct (free (queue s)); [|apply in_sync_refl].
  destruct (waiting (queue s)) as [|c rest]; [apply in_sync_refl|].
  destruct (jobs s !! c_job c) as [j|] eqn:Hj.
  - assert (id j = c_job c) as Hid
      by (destruct Hwf as [H _]; by apply (H _ _ Hj)).
    unfold snapshot_of, started, in_sync.
    sync_leaf (c_job c) Hwf Hnum Hid.
  - apply in_sync_queue_r, in_sync_refl.
Qed.

(** A request tells the observers what it did to the registry. *)
Lemma request_in_sync body s :
  well_formed s → in_sync s (onWebhook body s).2.
Proof.
  intros Hwf. destruct (onWebhook_store body s) as [[Hf ->] | [Hf ->]];
    [|apply in_sync_refl].
  eapply in_sync_trans; [by apply accepted_in_sync|].
  apply started_in_sync, well_formed_accepted; [done|].
  apply no_violation_passes in Hf as [_ Hp]. by apply guard_content_id.
Qed.

(** So does each piece of a closure. *)
Lemma classified_in_sync c categories r s :
  well_formed s → c ∈ held s →
  in_sync s (after_classification c categories r s).2.
Proof.
  intros Hwf Hc. pose proof (snapshots_numbered s Hwf) as Hnum.
  destruct Hwf as (Hjobs & Hnd & Hq).
  destruct (Hq _ Hc) as [Hlt _].
  destruct (lookup_lt_is_Some_2 _ _ Hlt) as [j Hj].
  assert (id j = c_job c) as Hid by (by apply (Hjobs _ _ Hj)).
  assert (well_formed s) as Hwf by done.
  rewrite (after_classification_outcome c categories r s j Hj).
  unfold classified_outcome, in_sync.
  repeat case_match; sync_leaf (c_job c) Hwf Hnum Hid.
Qed.

Lemma committed_in_sync c s :
  well_formed s → c ∈ held s → in_sync s (after_commit c s).2.
Proof.
  intros Hwf Hc. pose proof (snapshots_numbered s Hwf) as Hnum.
  destruct Hwf as (Hjobs & Hnd & Hq).
  destruct (Hq _ Hc) as [Hlt _].
  destruct (lookup_lt_is_Some_2 _ _ Hlt) as [j Hj].
  assert (id j = c_job c) as Hid by (by apply (Hjobs _ _ Hj)).
  assert (well_formed s) as Hwf by done.
  rewrite (after_commit_known c s j Hj). unfold in_sync.
  sync_leaf (c_job c) Hwf Hnum Hid.
Qed.

Lemma resume_in_sync k c (m : M (option stage)) s :
  in_sync s (m s).2 → in_sync s (resume k c m s).
Proof.
  unfold resume. destruct (m s) as [[[st|]|e] s']; cbn [snd]; intros H;
    by apply in_sync_queue_r.
Qed.

Lemma step_in_sync s s' : well_formed s → step s s' → in_sync s s'.
Proof.
  intros Hwf Hstep. destruct Hstep as
    [body s | k c categories s Hk | k c categories r s Hk
    | k c i t ci s Hk | k f e s Hk | s | s].
  - by apply request_in_sync.
  - apply resume_in_sync. rewrite after_taxonomy_store.
    eexists. split; [reflexivity|]. reflexivity.
  - apply resume_in_sync, classified_in_sync; [done|].
    by eapply (suspended_held _ _ (Flight c _)).
  - apply resume_in_sync, committed_in_sync; [done|].
    by eapply (suspended_held _ _ (Flight c _)).
  - apply resume_in_sync, in_sync_refl.
  - unfold next. rewrite start_store. cbn [snd].
    eapply in_sync_queue_l, started_in_sync, well_formed_queue; [done|].
    by cbn [waiting suspended].
  - apply in_sync_queue_r, in_sync_refl.
Qed.

(** X16: the events relayed to the sockets account for every change of
    the list of jobs.  A socket that connects in a store that the
    server has reached, is sent the list of jobs, and then applies the
    events relayed to it (a created job is added, an updated job
    replaces the one with its identifier) holds, after any further
    steps of the server (requests, pieces of closures between their
    [await]s, whatever the services answer and whatever the queue
    starts, abandons or drops), exactly the list that a socket
    connecting then is sent. *)
Theorem observers_stay_in_sync s s' :
  reachable s →
  rtc step s s' →
  ∃ events, trace s' = trace s ++ events
            ∧ replay (snapshots s) events = snapshots s'.
Proof.
  intros Hr. revert s'. apply rtc_ind_r.
  - apply in_sync_refl.
  - intros s1 s2 Hs1 Hstep IH.
    assert (well_formed s1) as Hwf.
    { apply reachable_well_formed. unfold reachable in *. by etrans. }
    exact (in_sync_trans _ _ _ IH (step_in_sync _ _ Hwf Hstep)).
Qed.

Lemma observers_stay_in_sync_witness :
  ∃ events,
    trace (resume 0 Cases.closure_A
             (after_classification Cases.closure_A Examples.groceries_taxonomy
                (Classification (VStr "Groceries") (VStr "prompt")
                                (VStr "raw")))
             (resume 0 Cases.closure_A
                (after_taxonomy Cases.closure_A Examples.groceries_taxonomy)
                Cases.store_AA))
    = trace Cases.store_AA ++ events
    ∧ replay (snapshots Cases.store_AA) events
      = snapshots
          (resume 0 Cases.closure_A
             (after_classification Cases.closure_A Examples.groceries_taxonomy
                (Classification (VStr "Groceries") (VStr "prompt")
                                (VStr "raw")))
             (resume 0 Cases.closure_A
                (after_taxonomy Cases.closure_A Examples.groceries_taxonomy)
                Cases.store_AA)).
Proof.
  apply (observers_stay_in_sync Cases.store_AA).
  - eapply rtc_l; [apply (step_request Examples.scenario_A)|].
    apply rtc_once, step_request.
  - eapply rtc_l;
      [apply (step_taxonomy 0 Cases.closure_A Examples.groceries_taxonomy);
       reflexivity|].
    apply rtc_once.
    apply (step_classification 0 Cases.closure_A Examples.groceries_taxonomy).
    reflexivity.
Defined.
